(** * neopixel_lamp: rotary encoder and neopixel drivers

  A shallow embedding of [rotenc.h], [rotenc.cpp], [neopixel.h],
  [neopixel.cpp] and the constants of [hardware.h], for an 8-bit AVR
  target where [int] and [int16_t] are 16 bits wide and [unsigned long]
  is 32 bits wide.

  Fixed-width integers are carried as [Z] with the wrap-around written
  out ([wrap16], [wrap_u8], [wrap_u32]).  Member variables and the
  function-local [static] variables of the interrupt handlers are the
  fields of one record that every method threads explicitly.  What the
  handlers read from the outside world (the input port register, the
  millisecond clock) is passed in as an argument. *)

From Stdlib Require Import ZArith List Bool Lia.
Import ListNotations.
Local Open Scope Z_scope.

(** ** Fixed-width arithmetic *)

Module Fixed.

(** Value of a 16-bit two's complement pattern: what an [int16_t]
    holds after an [int] result is stored back into it. *)
Definition wrap16 (z : Z) : Z := (z + 32768) mod 65536 - 32768.

Definition wrap_u8 (z : Z) : Z := z mod 256.

Definition wrap_u32 (z : Z) : Z := z mod 4294967296.

Definition int16_range (z : Z) : Prop := -32768 <= z <= 32767.

Definition uint8_range (z : Z) : Prop := 0 <= z <= 255.

Definition uint32_range (z : Z) : Prop := 0 <= z < 4294967296.

(** Arduino's [bitRead(value, bit)] is [(((value) >> (bit)) & 0x01)]. *)
Definition bitRead (value bit : Z) : Z := Z.land (Z.shiftr value bit) 1.

End Fixed.

(** ** hardware.h *)

Module Hardware.

Definition HW_NEOPIXEL_ROWS : Z := 8.
Definition HW_NEOPIXEL_COLS : Z := 4.
Definition HW_NEOPIXEL_NUMBER : Z := HW_NEOPIXEL_ROWS * HW_NEOPIXEL_COLS.

Definition HW_NEOPIXEL_T1H : Z := 900.
Definition HW_NEOPIXEL_T1L : Z := 600.
Definition HW_NEOPIXEL_T0H : Z := 400.
Definition HW_NEOPIXEL_T0L : Z := 900.
Definition HW_NEOPIXEL_RES : Z := 6000.

Definition NS_PER_SEC : Z := 1000000000.

Definition HW_ROTENC_A_BIT : Z := 2.
Definition HW_ROTENC_B_BIT : Z := 3.
Definition HW_ROTENC_BTN_BIT : Z := 4.

Definition HW_ROTENC_CYCLES_PER_DETENT : Z := 4.

Definition HW_BUTTON_SHORT_CLICK_MIN_TIME : Z := 20.
Definition HW_BUTTON_LONG_CLICK_MIN_TIME : Z := 500.

End Hardware.

(** ** rotenc.h, rotenc.cpp *)

Module RotEnc.
Import Fixed Hardware.

Inductive ButtonState : Type :=
| BUTTON_NONE
| BUTTON_SHORT_CLICK
| BUTTON_LONG_CLICK.

Definition INT16_T_MIN : Z := -32768.
Definition INT16_T_MAX : Z := 32767.

(** C++ integer division truncates towards zero: [Z.quot]. *)
Definition minLimitRange : Z :=
  Z.quot INT16_T_MIN HW_ROTENC_CYCLES_PER_DETENT + 1.
Definition maxLimitRange : Z :=
  Z.quot INT16_T_MAX HW_ROTENC_CYCLES_PER_DETENT - 1.

(** The object's fields, followed by the [static] locals of
    [encoderInterruptHandler] ([oldState]) and of
    [buttonInterruptHandler] ([oldButtonState], [buttonPressTime]). *)
Record t : Type := mk {
  counter : Z;
  counterMinLimit : Z;
  counterMaxLimit : Z;
  counterWrap : bool;
  buttonState : ButtonState;
  oldState : Z;
  oldButtonState : bool;
  buttonPressTime : Z
}.

(** [RotEnc::RotEnc()], with the statics at their initialisers. *)
Definition init : t :=
  {| counter := 0;
     counterMinLimit := minLimitRange;
     counterMaxLimit := maxLimitRange;
     counterWrap := false;
     buttonState := BUTTON_NONE;
     oldState := 0;
     oldButtonState := true;
     buttonPressTime := 0 |}.

Definition with_counter (c : Z) (s : t) : t :=
  {| counter := c;
     counterMinLimit := counterMinLimit s;
     counterMaxLimit := counterMaxLimit s;
     counterWrap := counterWrap s;
     buttonState := buttonState s;
     oldState := oldState s;
     oldButtonState := oldButtonState s;
     buttonPressTime := buttonPressTime s |}.

Definition with_oldState (o : Z) (s : t) : t :=
  {| counter := counter s;
     counterMinLimit := counterMinLimit s;
     counterMaxLimit := counterMaxLimit s;
     counterWrap := counterWrap s;
     buttonState := buttonState s;
     oldState := o;
     oldButtonState := oldButtonState s;
     buttonPressTime := buttonPressTime s |}.

Definition with_buttonState (b : ButtonState) (s : t) : t :=
  {| counter := counter s;
     counterMinLimit := counterMinLimit s;
     counterMaxLimit := counterMaxLimit s;
     counterWrap := counterWrap s;
     buttonState := b;
     oldState := oldState s;
     oldButtonState := oldButtonState s;
     buttonPressTime := buttonPressTime s |}.

Definition with_oldButtonState (b : bool) (s : t) : t :=
  {| counter := counter s;
     counterMinLimit := counterMinLimit s;
     counterMaxLimit := counterMaxLimit s;
     counterWrap := counterWrap s;
     buttonState := buttonState s;
     oldState := oldState s;
     oldButtonState := b;
     buttonPressTime := buttonPressTime s |}.

Definition with_buttonPressTime (p : Z) (s : t) : t :=
  {| counter := counter s;
     counterMinLimit := counterMinLimit s;
     counterMaxLimit := counterMaxLimit s;
     counterWrap := counterWrap s;
     buttonState := buttonState s;
     oldState := oldState s;
     oldButtonState := oldButtonState s;
     buttonPressTime := p |}.

(** [RotEnc::getCounter]: the quotient by the sub-step count. *)
Definition getCounter (s : t) : Z :=
  wrap16 (Z.quot (counter s) HW_ROTENC_CYCLES_PER_DETENT).

(** [RotEnc::setCounter].  The four guarded assignments run in source
    order on the local copies of the parameters; the three products are
    computed in 16-bit [int]. *)
Definition setCounter (counterValue minLimit maxLimit : Z) (wrap : bool)
    (s : t) : bool * t :=
  if minLimit >=? maxLimit then (false, s)
  else
    let minLimit := if minLimit <? minLimitRange then minLimitRange else minLimit in
    let maxLimit := if maxLimit >? maxLimitRange then maxLimitRange else maxLimit in
    let counterValue := if counterValue >? maxLimit then maxLimit else counterValue in
    let counterValue := if counterValue <? minLimit then minLimit else counterValue in
    (true,
     {| counter := wrap16 (counterValue * HW_ROTENC_CYCLES_PER_DETENT);
        counterMinLimit := wrap16 (minLimit * HW_ROTENC_CYCLES_PER_DETENT);
        counterMaxLimit := wrap16 (maxLimit * HW_ROTENC_CYCLES_PER_DETENT);
        counterWrap := wrap;
        buttonState := buttonState s;
        oldState := oldState s;
        oldButtonState := oldButtonState s;
        buttonPressTime := buttonPressTime s |}).

(** The lookup table of [encoderInterruptHandler]; the index is
    [previous sample * 4 + current sample]. *)
Definition statesTable : list Z :=
  [0; -1; 1; 0; 1; 0; 0; -1; -1; 0; 0; 1; 0; 1; -1; 0].

Definition fourLowestBits : Z := 15.

(** The three statements that update [oldState] from the port value. *)
Definition nextOldState (port old : Z) : Z :=
  let o := wrap_u8 (Z.shiftl old 2) in
  let o := Z.lor o
             (Z.lor (Z.shiftl (bitRead port HW_ROTENC_B_BIT) 1)
                    (bitRead port HW_ROTENC_A_BIT)) in
  Z.land o fourLowestBits.

Definition lookup (idx : Z) : Z := nth (Z.to_nat idx) statesTable 0.

(** [RotEnc::encoderInterruptHandler]; [port] is the value read from
    [HW_ROTENC_PORT]. *)
Definition encoderInterruptHandler (port : Z) (s : t) : t :=
  let o := nextOldState port (oldState s) in
  let s := with_oldState o s in
  let increment := lookup o in
  let '(s, increment) :=
    if (counter s =? counterMaxLimit s) && (increment >? 0) then
      (if counterWrap s
       then with_counter (counterMinLimit s) s
       else with_counter (counterMaxLimit s) s, 0)
    else (s, increment) in
  let '(s, increment) :=
    if (counter s =? counterMinLimit s) && (increment <? 0) then
      (if counterWrap s
       then with_counter (counterMaxLimit s) s
       else with_counter (counterMinLimit s) s, 0)
    else (s, increment) in
  with_counter (wrap16 (counter s + increment)) s.

(** [RotEnc::buttonInterruptHandler]; [port] is the value read from
    [HW_ROTENC_PORT] and [now] the value of [millis()]. *)
Definition buttonInterruptHandler (port now : Z) (s : t) : t :=
  let currentButtonState := bitRead port HW_ROTENC_BTN_BIT in
  let current := negb (currentButtonState =? 0) in
  let s :=
    if negb current && oldButtonState s
    then with_buttonPressTime now s
    else s in
  let s :=
    if current && negb (oldButtonState s) then
      let buttonHoldTime := wrap_u32 (now - buttonPressTime s) in
      let s :=
        if buttonHoldTime >? HW_BUTTON_SHORT_CLICK_MIN_TIME
        then with_buttonState BUTTON_SHORT_CLICK s else s in
      if buttonHoldTime >? HW_BUTTON_LONG_CLICK_MIN_TIME
      then with_buttonState BUTTON_LONG_CLICK s else s
    else s in
  with_oldButtonState current s.

(** [RotEnc::getButtonState]: the value returned and the state left. *)
Definition getButtonState (s : t) : ButtonState * t :=
  let tempState := buttonState s in
  (tempState, with_buttonState BUTTON_NONE s).

(** The interrupt service routine of the class documentation:
    both handlers, encoder first. *)
Definition isr (port now : Z) (s : t) : t :=
  buttonInterruptHandler port now (encoderInterruptHandler port s).

Definition isr_run (events : list (Z * Z)) (s : t) : t :=
  fold_left (fun s e => isr (fst e) (snd e) s) events s.

Definition encoder_run (ports : list Z) (s : t) : t :=
  fold_left (fun s p => encoderInterruptHandler p s) ports s.

(** The invariant on the counter and its limits. *)
Definition inv (s : t) : Prop :=
  counterMinLimit s <= counter s <= counterMaxLimit s.

End RotEnc.

(** ** neopixel.h, neopixel.cpp *)

Module Neopixel.
Import Fixed Hardware.

(** What the processor does that is visible on the data line: the two
    port instructions of the inline assembly, the padding [nop], and the
    busy wait of [delayMicroseconds]. *)
Inductive op : Type :=
| Sbi
| Cbi
| Nop
| DelayMicroseconds (us : Z).

(** The global interrupt enable flag, and the operations executed so
    far, oldest first, each with the value the flag had when it ran. *)
Record mcu : Type := mkMcu {
  interruptsEnabled : bool;
  wire : list (bool * op)
}.

Definition noInterrupts (m : mcu) : mcu :=
  {| interruptsEnabled := false; wire := wire m |}.

Definition interrupts (m : mcu) : mcu :=
  {| interruptsEnabled := true; wire := wire m |}.

Definition emit (o : op) (m : mcu) : mcu :=
  {| interruptsEnabled := interruptsEnabled m;
     wire := wire m ++ [(interruptsEnabled m, o)] |}.

(** The assembler's [.rept count ... .endr] around one instruction. *)
Fixpoint rept (count : nat) (o : op) (m : mcu) : mcu :=
  match count with
  | O => m
  | S count' => rept count' o (emit o m)
  end.

(** [for (int i = 0; i < bound; i++) body]: [count] iterations left,
    the loop variable at [i]. *)
Fixpoint for_upto (count : nat) (i : Z) (body : Z -> mcu -> mcu) (m : mcu) : mcu :=
  match count with
  | O => m
  | S count' => for_upto count' (i + 1) body (body i m)
  end.

Section WithClock.

(** [F_CPU] is supplied by the build, not by the sources. *)
Variable F_CPU : Z.

Definition CYCLES_PER_SEC : Z := F_CPU.
Definition NS_PER_CYCLE : Z := Z.quot NS_PER_SEC CYCLES_PER_SEC.
Definition NS_TO_CYCLES (n : Z) : Z := Z.quot n NS_PER_CYCLE.

(** The [asm volatile] block shared by both branches of [sendBit]. *)
Definition asm_pulse (onCycles offCycles : Z) (m : mcu) : mcu :=
  rept (Z.to_nat offCycles) Nop
    (emit Cbi
       (rept (Z.to_nat onCycles) Nop
          (emit Sbi m))).

(** [Neopixel::sendBit]. *)
Definition sendBit (bitValue : bool) (m : mcu) : mcu :=
  if bitValue then
    asm_pulse (NS_TO_CYCLES HW_NEOPIXEL_T1H - 2) (NS_TO_CYCLES HW_NEOPIXEL_T1L - 2) m
  else
    asm_pulse (NS_TO_CYCLES HW_NEOPIXEL_T0H - 2) (NS_TO_CYCLES HW_NEOPIXEL_T0L - 2) m.

(** The loop of [Neopixel::sendByte], [count] iterations left. *)
Fixpoint sendByte_loop (count : nat) (input : Z) (m : mcu) : mcu :=
  match count with
  | O => m
  | S count' =>
      let m := sendBit (negb (bitRead input 7 =? 0)) m in
      sendByte_loop count' (wrap_u8 (Z.shiftl input 1)) m
  end.

(** [Neopixel::sendByte]. *)
Definition sendByte (input : Z) (m : mcu) : mcu := sendByte_loop 8 input m.

(** [Neopixel::sendRgb]. *)
Definition sendRgb (r g b : Z) (m : mcu) : mcu :=
  sendByte b (sendByte r (sendByte g m)).

Definition nanosecPerMiscrosec : Z := 1000.

(** [Neopixel::show]. *)
Definition show (m : mcu) : mcu :=
  emit (DelayMicroseconds (Z.quot HW_NEOPIXEL_RES nanosecPerMiscrosec + 1)) m.

(** [Neopixel::setUniformColour]. *)
Definition setUniformColour (r g b : Z) (m : mcu) : mcu :=
  let m := noInterrupts m in
  let m := for_upto (Z.to_nat HW_NEOPIXEL_NUMBER) 0 (fun _ => sendRgb r g b) m in
  let m := show m in
  noInterrupts m.

(** Modelled from the spec: the body of [Neopixel::setFromArray], which
    [neopixel.h] declares and no source file defines.  The spec has it
    transmit one triplet per strip position from the three channel
    arrays, suspend interrupts for the frame, wait out the latch gap and
    re-enable interrupts only after that wait.  It is built from the
    source's own [sendRgb] and [show]; an array is a list, read at [i]. *)
Definition setFromArray (r g b : list Z) (m : mcu) : mcu :=
  let m := noInterrupts m in
  let m := for_upto (Z.to_nat HW_NEOPIXEL_NUMBER) 0
             (fun i => sendRgb (nth (Z.to_nat i) r 0)
                               (nth (Z.to_nat i) g 0)
                               (nth (Z.to_nat i) b 0)) m in
  let m := show m in
  interrupts m.

(** *** The wire protocol in the spec's words *)

(** One bit on the wire: the line driven high, held, driven low, held. *)
Definition pulse (high low : Z) : list op :=
  [Sbi] ++ repeat Nop (Z.to_nat high) ++ [Cbi] ++ repeat Nop (Z.to_nat low).

(** A 1 bit holds high for [T1H] and low for [T1L], a 0 bit for [T0H]
    and [T0L], each less the two cycles of the port instruction. *)
Definition bit_code (v : bool) : list op :=
  if v
  then pulse (NS_TO_CYCLES HW_NEOPIXEL_T1H - 2) (NS_TO_CYCLES HW_NEOPIXEL_T1L - 2)
  else pulse (NS_TO_CYCLES HW_NEOPIXEL_T0H - 2) (NS_TO_CYCLES HW_NEOPIXEL_T0L - 2).

(** The eight bits of a byte, most significant first. *)
Definition msb_first (x : Z) : list bool :=
  map (Z.testbit x) [7; 6; 5; 4; 3; 2; 1; 0].

Definition byte_code (x : Z) : list op :=
  concat (map bit_code (msb_first x)).

(** A pixel: green, then red, then blue. *)
Definition triplet_code (r g b : Z) : list op :=
  byte_code g ++ byte_code r ++ byte_code b.

(** The colours of the first [count] strip positions, one per position,
    read off three channel arrays. *)
Definition pixels (count : nat) (r g b : list Z) : list (Z * (Z * Z)) :=
  combine (firstn count r) (combine (firstn count g) (firstn count b)).

(** A frame: the triplets of its pixels in strip order. *)
Definition frame_code (px : list (Z * (Z * Z))) : list op :=
  concat (map (fun p => triplet_code (fst p) (fst (snd p)) (snd (snd p))) px).

End WithClock.

Definition is_delay (o : op) : bool :=
  match o with DelayMicroseconds _ => true | _ => false end.

(** The operations alone, without the interrupt flag they ran under. *)
Definition ops (m : mcu) : list op := map snd (wire m).

(** Operations executed between [m] and a later state [m']. *)
Definition since (m m' : mcu) : list (bool * op) :=
  skipn (length (wire m)) (wire m').

(** [m'] is [m] after executing exactly [l], the interrupt flag never
    touched. *)
Definition appends (l : list op) (m m' : mcu) : Prop :=
  interruptsEnabled m' = interruptsEnabled m /\
  wire m' = wire m ++ map (pair (interruptsEnabled m)) l.

(** The loop variable's values: [count] of them from [i] up. *)
Definition indices (i : Z) (count : nat) : list Z :=
  map (fun k => i + Z.of_nat k) (seq 0 count).

End Neopixel.

(** ** Vocabulary for the encoder's properties *)

Module RotEncSpec.
Import Fixed Hardware RotEnc.

(** The fields hold values of their C++ types. *)
Definition wf (s : t) : Prop :=
  int16_range (counter s) /\
  int16_range (counterMinLimit s) /\
  int16_range (counterMaxLimit s) /\
  uint8_range (oldState s).

(** The 2-bit sample the handler builds from the port: line B above line A. *)
Definition sample (port : Z) : Z :=
  2 * bitRead port HW_ROTENC_B_BIT + bitRead port HW_ROTENC_A_BIT.

(** A value clamped into [lo, hi]. *)
Definition clamp (lo hi v : Z) : Z := Z.max lo (Z.min v hi).

(** What a release after [held] milliseconds leaves pending. *)
Definition classify (held : Z) (pending : ButtonState) : ButtonState :=
  if held >? HW_BUTTON_LONG_CLICK_MIN_TIME then BUTTON_LONG_CLICK
  else if held >? HW_BUTTON_SHORT_CLICK_MIN_TIME then BUTTON_SHORT_CLICK
  else pending.

(** The port value whose encoder lines read as the 2-bit sample [q]. *)
Definition port_of_sample (q : Z) : Z := Z.shiftl q HW_ROTENC_A_BIT.

(** One backward detent: four port values, each a legal step back. *)
Definition backward_detent : list Z := map port_of_sample [1; 3; 2; 0].

Fixpoint backward_detents (n : nat) : list Z :=
  match n with
  | O => []
  | S n' => backward_detent ++ backward_detents n'
  end.

(** A transition between two 2-bit samples that is no step at all, or
    changes both lines at once. *)
Definition degenerate (prev cur : Z) : Prop :=
  prev = cur \/ Z.lxor prev cur = 3.

(** A legal quadrature step: exactly one of the two lines changes. *)
Definition single_step (prev cur : Z) : Prop :=
  Z.lxor prev cur = 1 \/ Z.lxor prev cur = 2.

(** The counter the handler leaves, as one expression. *)
Definition counter_after (port : Z) (s : t) : Z :=
  let increment := lookup (nextOldState port (oldState s)) in
  if (counter s =? counterMaxLimit s) && (increment >? 0) then
    wrap16 ((if counterWrap s then counterMinLimit s else counterMaxLimit s) + 0)
  else if (counter s =? counterMinLimit s) && (increment <? 0) then
    wrap16 ((if counterWrap s then counterMaxLimit s else counterMinLimit s) + 0)
  else wrap16 (counter s + increment).

(** The button line reads released now and read pressed at the
    previous interrupt. *)
Definition release_edge (port : Z) (s : t) : bool :=
  negb (bitRead port HW_ROTENC_BTN_BIT =? 0) && negb (oldButtonState s).

(** The button line reads pressed now and read released before. *)
Definition press_edge (port : Z) (s : t) : bool :=
  (bitRead port HW_ROTENC_BTN_BIT =? 0) && oldButtonState s.

(** Milliseconds from the recorded press to [now], on the 32-bit clock. *)
Definition held_time (now : Z) (s : t) : Z :=
  wrap_u32 (now - buttonPressTime s).

(** The interrupt is a release that comes late enough to count as a click. *)
Definition clicks (port now : Z) (s : t) : bool :=
  release_edge port s && (held_time now s >? HW_BUTTON_SHORT_CLICK_MIN_TIME).

(** A run of interrupts, each given as port value and clock value,
    none of which completes a click. *)
Fixpoint quiet (events : list (Z * Z)) (s : t) : Prop :=
  match events with
  | [] => True
  | e :: events' =>
      clicks (fst e) (snd e) s = false /\
      quiet events' (isr (fst e) (snd e) s)
  end.

(** The states the encoder can be in: the constructed object, then any
    run of successful [setCounter] calls and interrupt handler
    invocations.  [limits_ok] restricts the limits [setCounter] is
    called with. *)
Inductive reachable (limits_ok : Z -> Z -> Prop) : t -> Prop :=
| reach_init : reachable limits_ok init
| reach_setCounter counterValue minLimit maxLimit wrap s :
    reachable limits_ok s ->
    int16_range counterValue ->
    int16_range minLimit ->
    int16_range maxLimit ->
    limits_ok minLimit maxLimit ->
    fst (setCounter counterValue minLimit maxLimit wrap s) = true ->
    reachable limits_ok (snd (setCounter counterValue minLimit maxLimit wrap s))
| reach_encoder port s :
    reachable limits_ok s ->
    reachable limits_ok (encoderInterruptHandler port s)
| reach_button port now s :
    reachable limits_ok s ->
    reachable limits_ok (buttonInterruptHandler port now s)
| reach_getButtonState s :
    reachable limits_ok s ->
    reachable limits_ok (snd (getButtonState s)).

(** Limits that leave a non-empty range once clamped into
    [minLimitRange, maxLimitRange]. *)
Definition limits_meet_range (minLimit maxLimit : Z) : Prop :=
  minLimit <= maxLimitRange /\ minLimitRange <= maxLimit.

Definition any_limits (minLimit maxLimit : Z) : Prop := True.

End RotEncSpec.

(** ** The device: registers, interrupt flag and both drivers *)

Module Device.
Import Fixed Hardware.

(** Arduino's [bitSet(value, bit)] is [((value) |= (1UL << (bit)))] and
    [bitClear(value, bit)] is [((value) &= ~(1UL << (bit)))]; the
    result is stored in an 8-bit register. *)
Definition bitSet (value bit : Z) : Z :=
  wrap_u8 (Z.lor value (Z.shiftl 1 bit)).

Definition bitClear (value bit : Z) : Z :=
  wrap_u8 (Z.land value (Z.lnot (Z.shiftl 1 bit))).

Definition HW_NEOPIXEL_BIT : Z := 5.

(** The I/O registers the two [begin] methods write, each holding the
    byte last stored in it. *)
Record regs : Type := mkRegs {
  DDRB : Z;
  DDRD : Z;
  PORTD : Z;
  PCMSK2 : Z;
  PCIFR : Z;
  PCICR : Z
}.

Definition set_DDRB (v : Z) (r : regs) : regs :=
  {| DDRB := v; DDRD := DDRD r; PORTD := PORTD r;
     PCMSK2 := PCMSK2 r; PCIFR := PCIFR r; PCICR := PCICR r |}.

Definition set_DDRD (v : Z) (r : regs) : regs :=
  {| DDRB := DDRB r; DDRD := v; PORTD := PORTD r;
     PCMSK2 := PCMSK2 r; PCIFR := PCIFR r; PCICR := PCICR r |}.

Definition set_PORTD (v : Z) (r : regs) : regs :=
  {| DDRB := DDRB r; DDRD := DDRD r; PORTD := v;
     PCMSK2 := PCMSK2 r; PCIFR := PCIFR r; PCICR := PCICR r |}.

Definition set_PCMSK2 (v : Z) (r : regs) : regs :=
  {| DDRB := DDRB r; DDRD := DDRD r; PORTD := PORTD r;
     PCMSK2 := v; PCIFR := PCIFR r; PCICR := PCICR r |}.

Definition set_PCIFR (v : Z) (r : regs) : regs :=
  {| DDRB := DDRB r; DDRD := DDRD r; PORTD := PORTD r;
     PCMSK2 := PCMSK2 r; PCIFR := v; PCICR := PCICR r |}.

Definition set_PCICR (v : Z) (r : regs) : regs :=
  {| DDRB := DDRB r; DDRD := DDRD r; PORTD := PORTD r;
     PCMSK2 := PCMSK2 r; PCIFR := PCIFR r; PCICR := v |}.

(** The processor (interrupt flag and data line), the registers and the
    encoder object. *)
Record t : Type := mk {
  cpu : Neopixel.mcu;
  io : regs;
  rotenc : RotEnc.t
}.

(** [Neopixel::begin]. *)
Definition Neopixel_begin (d : t) : t :=
  {| cpu := cpu d;
     io := set_DDRB (bitSet (DDRB (io d)) HW_NEOPIXEL_BIT) (io d);
     rotenc := rotenc d |}.

(** [Neopixel::setUniformColour] on the device. *)
Definition Neopixel_setUniformColour (F_CPU r g b : Z) (d : t) : t :=
  {| cpu := Neopixel.setUniformColour F_CPU r g b (cpu d);
     io := io d;
     rotenc := rotenc d |}.

(** [RotEnc::getCounter] with its [noInterrupts()] and [interrupts()]. *)
Definition RotEnc_getCounter (d : t) : Z * t :=
  let m := Neopixel.noInterrupts (cpu d) in
  let retVal := RotEnc.getCounter (rotenc d) in
  let m := Neopixel.interrupts m in
  (retVal, {| cpu := m; io := io d; rotenc := rotenc d |}).

(** [RotEnc::getButtonState] with its [noInterrupts()] and
    [interrupts()]. *)
Definition RotEnc_getButtonState (d : t) : RotEnc.ButtonState * t :=
  let m := Neopixel.noInterrupts (cpu d) in
  let '(tempState, s) := RotEnc.getButtonState (rotenc d) in
  let m := Neopixel.interrupts m in
  (tempState, {| cpu := m; io := io d; rotenc := s |}).

(** [RotEnc::setCounter]: the early [return (false)] comes before
    [noInterrupts()]. *)
Definition RotEnc_setCounter (counterValue minLimit maxLimit : Z) (wrap : bool)
    (d : t) : bool * t :=
  if minLimit >=? maxLimit then (false, d)
  else
    let m := Neopixel.noInterrupts (cpu d) in
    let s := snd (RotEnc.setCounter counterValue minLimit maxLimit wrap (rotenc d)) in
    let m := Neopixel.interrupts m in
    (true, {| cpu := m; io := io d; rotenc := s |}).

Section WithIoHeader.

(** Bit numbers that the processor's header [avr/io.h] gives, not the
    sources. *)
Variables PCINT18 PCINT19 PCINT20 PCIF2 PCIE2 : Z.

Definition HW_ROTENC_PCIFR : Z := PCIF2.
Definition HW_ROTENC_PCICR : Z := PCIE2.
Definition HW_ROTENC_A_INT : Z := PCINT18.
Definition HW_ROTENC_B_INT : Z := PCINT19.
Definition HW_ROTENC_BTN_INT : Z := PCINT20.

(** [RotEnc::begin]. *)
Definition RotEnc_begin (d : t) : t :=
  let r := io d in
  let r := set_DDRD (bitClear (DDRD r) HW_ROTENC_A_BIT) r in
  let r := set_DDRD (bitClear (DDRD r) HW_ROTENC_B_BIT) r in
  let r := set_PORTD (bitSet (PORTD r) HW_ROTENC_A_BIT) r in
  let r := set_PORTD (bitSet (PORTD r) HW_ROTENC_B_BIT) r in
  let m := Neopixel.noInterrupts (cpu d) in
  let r := set_PCMSK2 (bitSet (PCMSK2 r) HW_ROTENC_A_INT) r in
  let r := set_PCMSK2 (bitSet (PCMSK2 r) HW_ROTENC_B_INT) r in
  let r := set_PCMSK2 (bitSet (PCMSK2 r) HW_ROTENC_BTN_INT) r in
  let r := set_PCIFR (bitSet (PCIFR r) HW_ROTENC_PCIFR) r in
  let r := set_PCICR (bitSet (PCICR r) HW_ROTENC_PCICR) r in
  let m := Neopixel.interrupts m in
  {| cpu := m; io := r; rotenc := rotenc d |}.

End WithIoHeader.

(** Every register holds a byte. *)
Definition regs_ok (r : regs) : Prop :=
  uint8_range (DDRB r) /\ uint8_range (DDRD r) /\ uint8_range (PORTD r) /\
  uint8_range (PCMSK2 r) /\ uint8_range (PCIFR r) /\ uint8_range (PCICR r).

End Device.

(** ** Vocabulary for the further properties *)

Module ExtraSpec.
Import Fixed Hardware RotEnc RotEncSpec Neopixel.

(** Where a counter at [counter s] goes when [increment] is applied
    under the limits and the wrap flag of [s]. *)
Definition advance (s : RotEnc.t) (increment : Z) : Z :=
  let c := counter s + increment in
  if counterWrap s then
    if c >? counterMaxLimit s then counterMinLimit s
    else if c <? counterMinLimit s then counterMaxLimit s
    else c
  else clamp (counterMinLimit s) (counterMaxLimit s) c.

(** The 2-bit samples of one detent turned forward, and of one turned
    backward, starting and ending with both lines low. *)
Definition forward_samples : list Z := [2; 3; 1; 0].
Definition backward_samples : list Z := [1; 3; 2; 0].

(** The level of the data line after a run of operations. *)
Definition line_after (level : bool) (l : list op) : bool :=
  fold_left (fun lvl o => match o with
                          | Sbi => true
                          | Cbi => false
                          | _ => lvl
                          end) l level.

Definition is_sbi (o : op) : bool :=
  match o with Sbi => true | _ => false end.

(** The number of times the line is driven high. *)
Definition pulses (l : list op) : nat := length (filter is_sbi l).

(** The processor cycles a 1 bit and a 0 bit hold the line high, as the
    assembler repeats them. *)
Definition high_nops (F_CPU : Z) (v : bool) : nat :=
  if v then Z.to_nat (NS_TO_CYCLES F_CPU HW_NEOPIXEL_T1H - 2)
  else Z.to_nat (NS_TO_CYCLES F_CPU HW_NEOPIXEL_T0H - 2).

End ExtraSpec.

(** * Properties *)

(** ** Fixed-width arithmetic *)

Module FixedFacts.
Import Fixed.

Lemma wrap16_id z : int16_range z -> wrap16 z = z.
Proof.
  unfold int16_range, wrap16; intros H.
  rewrite Z.mod_small; lia.
Qed.

Lemma wrap16_range z : int16_range (wrap16 z).
Proof.
  unfold int16_range, wrap16.
  pose proof (Z.mod_pos_bound (z + 32768) 65536 eq_refl); lia.
Qed.

Lemma bitRead_cases value bit : bitRead value bit = 0 \/ bitRead value bit = 1.
Proof.
  unfold bitRead.
  replace (Z.land (Z.shiftr value bit) 1) with (Z.shiftr value bit mod 2).
  - pose proof (Z.mod_pos_bound (Z.shiftr value bit) 2 eq_refl); lia.
  - symmetry; apply (Z.land_ones (Z.shiftr value bit) 1); lia.
Qed.

(** Checking a boolean predicate on every integer of [0, n) by running it. *)
Lemma range_forallb (P : Z -> bool) (n : nat) :
  forallb P (map Z.of_nat (seq 0 n)) = true ->
  forall z, 0 <= z < Z.of_nat n -> P z = true.
Proof.
  intros Hall z Hz.
  rewrite forallb_forall in Hall; apply Hall.
  apply in_map_iff; exists (Z.to_nat z); split.
  - apply Z2Nat.id; lia.
  - apply in_seq; lia.
Qed.

End FixedFacts.

(** ** Rotary encoder *)

Module RotEncFacts.
Import Fixed Hardware RotEnc RotEncSpec FixedFacts.

Lemma limit_ranges : minLimitRange = -8191 /\ maxLimitRange = 8190.
Proof. split; reflexivity. Qed.

Lemma sample_range port : 0 <= sample port <= 3.
Proof.
  unfold sample.
  destruct (bitRead_cases port HW_ROTENC_B_BIT) as [-> | ->],
           (bitRead_cases port HW_ROTENC_A_BIT) as [-> | ->]; lia.
Qed.

(** The history register after an update: the previous sample moved up
    two bits, the new sample below it. *)
Lemma nextOldState_index port old :
  uint8_range old ->
  nextOldState port old = (old mod 4) * 4 + sample port.
Proof.
  unfold uint8_range, nextOldState, sample; intros Hold.
  assert (Hcheck : forall a b, (a = 0 \/ a = 1) -> (b = 0 \/ b = 1) ->
            (Z.land (Z.lor (wrap_u8 (Z.shiftl old 2))
                           (Z.lor (Z.shiftl b 1) a)) fourLowestBits
             =? (old mod 4) * 4 + (2 * b + a)) = true).
  { intros a b Ha Hb.
    apply (range_forallb
             (fun o => Z.land (Z.lor (wrap_u8 (Z.shiftl o 2))
                                     (Z.lor (Z.shiftl b 1) a)) fourLowestBits
                       =? (o mod 4) * 4 + (2 * b + a)) 256); [ | lia ].
    destruct Ha as [-> | ->], Hb as [-> | ->]; vm_compute; reflexivity. }
  specialize (Hcheck _ _ (bitRead_cases port HW_ROTENC_A_BIT)
                         (bitRead_cases port HW_ROTENC_B_BIT)).
  apply Z.eqb_eq in Hcheck; rewrite Hcheck; lia.
Qed.

Lemma nextOldState_range port old :
  uint8_range old -> 0 <= nextOldState port old < 16.
Proof.
  intros Hold; rewrite nextOldState_index by exact Hold.
  pose proof (sample_range port).
  pose proof (Z.mod_pos_bound old 4 eq_refl); lia.
Qed.

Lemma lookup_values idx :
  0 <= idx < 16 -> lookup idx = -1 \/ lookup idx = 0 \/ lookup idx = 1.
Proof.
  intros H.
  assert (E : ((lookup idx =? -1) || (lookup idx =? 0) || (lookup idx =? 1)) = true).
  { apply (range_forallb
             (fun i => (lookup i =? -1) || (lookup i =? 0) || (lookup i =? 1)) 16);
      [ vm_compute; reflexivity | lia ]. }
  rewrite !orb_true_iff, !Z.eqb_eq in E; tauto.
Qed.


(** *** Reconfiguration *)

(** C3: [setCounter] reports failure exactly when [minLimit >= maxLimit],
    and a failing call hands back the state it was given: counter, both
    limits and the wrap flag are untouched. *)
Theorem setCounter_failure (counterValue minLimit maxLimit : Z) (wrap : bool) (s : t) :
  (fst (setCounter counterValue minLimit maxLimit wrap s) = false <->
   minLimit >= maxLimit) /\
  (fst (setCounter counterValue minLimit maxLimit wrap s) = false ->
   snd (setCounter counterValue minLimit maxLimit wrap s) = s).
Proof.
  unfold setCounter.
  destruct (Z.geb_spec minLimit maxLimit) as [Hge | Hlt]; cbn [fst snd].
  - split; [ split; [ lia | reflexivity ] | reflexivity ].
  - split; [ split; [ discriminate | lia ] | discriminate ].
Qed.

(** [setCounter(5, 10, 1, false)] on a configured encoder. *)
Lemma setCounter_failure_witness :
  let s := snd (setCounter 3 (-10) 10 true init) in
  fst (setCounter 5 10 1 false s) = false /\
  snd (setCounter 5 10 1 false s) = s.
Proof.
  intros s.
  destruct (setCounter_failure 5 10 1 false s) as [Hiff Hsame].
  assert (Hfail : fst (setCounter 5 10 1 false s) = false)
    by (apply Hiff; lia).
  split; [ exact Hfail | exact (Hsame Hfail) ].
Defined.

Lemma setCounter_success (counterValue minLimit maxLimit : Z) (wrap : bool) (s : t) :
  minLimit < maxLimit ->
  setCounter counterValue minLimit maxLimit wrap s =
  (true,
   let lo := Z.max minLimit minLimitRange in
   let hi := Z.min maxLimit maxLimitRange in
   let v := if Z.min counterValue hi <? lo then lo else Z.min counterValue hi in
   {| counter := wrap16 (v * HW_ROTENC_CYCLES_PER_DETENT);
      counterMinLimit := wrap16 (lo * HW_ROTENC_CYCLES_PER_DETENT);
      counterMaxLimit := wrap16 (hi * HW_ROTENC_CYCLES_PER_DETENT);
      counterWrap := wrap;
      buttonState := buttonState s;
      oldState := oldState s;
      oldButtonState := oldButtonState s;
      buttonPressTime := buttonPressTime s |}).
Proof.
  intros Hlt; unfold setCounter.
  destruct (Z.geb_spec minLimit maxLimit) as [Hge | _]; [ lia | ].
  cbv zeta.
  replace (if minLimit <? minLimitRange then minLimitRange else minLimit)
    with (Z.max minLimit minLimitRange)
    by (destruct (Z.ltb_spec minLimit minLimitRange); lia).
  replace (if maxLimit >? maxLimitRange then maxLimitRange else maxLimit)
    with (Z.min maxLimit maxLimitRange)
    by (rewrite Z.gtb_ltb; destruct (Z.ltb_spec maxLimitRange maxLimit); lia).
  replace (if counterValue >? Z.min maxLimit maxLimitRange
           then Z.min maxLimit maxLimitRange else counterValue)
    with (Z.min counterValue (Z.min maxLimit maxLimitRange))
    by (rewrite Z.gtb_ltb;
        destruct (Z.ltb_spec (Z.min maxLimit maxLimitRange) counterValue); lia).
  reflexivity.
Qed.

(** C10: with both limits inside [minLimitRange, maxLimitRange] and
    [minLimit < maxLimit], [setCounter] succeeds and the [getCounter]
    that follows returns the value clamped into [minLimit, maxLimit]:
    multiplying by the sub-step count and dividing again loses nothing. *)
Theorem setCounter_getCounter (counterValue minLimit maxLimit : Z) (wrap : bool) (s : t) :
  minLimitRange <= minLimit ->
  maxLimit <= maxLimitRange ->
  minLimit < maxLimit ->
  fst (setCounter counterValue minLimit maxLimit wrap s) = true /\
  getCounter (snd (setCounter counterValue minLimit maxLimit wrap s)) =
  clamp minLimit maxLimit counterValue.
Proof.
  intros Hlo Hhi Hlt.
  rewrite setCounter_success by exact Hlt.
  cbn [fst snd]; split; [ reflexivity | ].
  destruct limit_ranges as [Emin Emax].
  unfold getCounter, clamp; cbn [counter].
  rewrite (Z.max_l minLimit) by lia.
  rewrite (Z.min_l maxLimit) by lia.
  set (v := if Z.min counterValue maxLimit <? minLimit
            then minLimit else Z.min counterValue maxLimit).
  assert (Hv : v = Z.max minLimit (Z.min counterValue maxLimit))
    by (subst v; destruct (Z.ltb_spec (Z.min counterValue maxLimit) minLimit); lia).
  assert (Hr : -8191 <= v <= 8190) by lia.
  unfold HW_ROTENC_CYCLES_PER_DETENT.
  rewrite (wrap16_id (v * 4)) by (unfold int16_range; lia).
  rewrite Z.quot_mul by lia.
  rewrite wrap16_id by (unfold int16_range; lia).
  exact Hv.
Qed.

Lemma setCounter_getCounter_witness :
  fst (setCounter 25 (-10) 10 true init) = true /\
  getCounter (snd (setCounter 25 (-10) 10 true init)) = clamp (-10) 10 25.
Proof.
  apply (setCounter_getCounter 25 (-10) 10 true init); vm_compute; congruence.
Defined.

(** *** The encoder interrupt handler, field by field *)

(** Reduce field reads of updated records, and nothing else. *)
Ltac fields :=
  cbn [with_counter with_oldState with_buttonState with_oldButtonState
       with_buttonPressTime counter counterMinLimit counterMaxLimit
       counterWrap buttonState oldState oldButtonState buttonPressTime
       fst snd].

Lemma encoder_counter port s :
  counter (encoderInterruptHandler port s) = counter_after port s.
Proof.
  unfold encoderInterruptHandler, counter_after.
  cbn [with_oldState counter counterMaxLimit counterMinLimit counterWrap].
  destruct ((counter s =? counterMaxLimit s)
            && (lookup (nextOldState port (oldState s)) >? 0)) eqn:Emax.
  - destruct (counterWrap s);
      cbn [with_counter counter counterMinLimit counterMaxLimit counterWrap];
      rewrite andb_false_r;
      cbn [with_counter counter]; reflexivity.
  - cbn [with_oldState counter counterMaxLimit counterMinLimit counterWrap].
    destruct ((counter s =? counterMinLimit s)
              && (lookup (nextOldState port (oldState s)) <? 0)) eqn:Emin.
    + destruct (counterWrap s); reflexivity.
    + reflexivity.
Qed.

Lemma encoder_frame port s :
  counterMinLimit (encoderInterruptHandler port s) = counterMinLimit s /\
  counterMaxLimit (encoderInterruptHandler port s) = counterMaxLimit s /\
  counterWrap (encoderInterruptHandler port s) = counterWrap s /\
  buttonState (encoderInterruptHandler port s) = buttonState s /\
  oldButtonState (encoderInterruptHandler port s) = oldButtonState s /\
  buttonPressTime (encoderInterruptHandler port s) = buttonPressTime s /\
  oldState (encoderInterruptHandler port s) = nextOldState port (oldState s).
Proof.
  unfold encoderInterruptHandler.
  cbn [with_oldState counter counterMaxLimit counterMinLimit counterWrap].
  destruct ((counter s =? counterMaxLimit s)
            && (lookup (nextOldState port (oldState s)) >? 0)).
  - destruct (counterWrap s) eqn:Ew;
      cbn [with_counter counter counterMinLimit counterMaxLimit counterWrap];
      rewrite andb_false_r; fields; rewrite ?Ew; repeat split; reflexivity.
  - cbn [with_oldState counter counterMaxLimit counterMinLimit counterWrap].
    destruct ((counter s =? counterMinLimit s)
              && (lookup (nextOldState port (oldState s)) <? 0)).
    + destruct (counterWrap s) eqn:Ew; fields; rewrite ?Ew; repeat split; reflexivity.
    + fields; repeat split; reflexivity.
Qed.

Lemma button_frame port now s :
  counter (buttonInterruptHandler port now s) = counter s /\
  counterMinLimit (buttonInterruptHandler port now s) = counterMinLimit s /\
  counterMaxLimit (buttonInterruptHandler port now s) = counterMaxLimit s /\
  counterWrap (buttonInterruptHandler port now s) = counterWrap s /\
  oldState (buttonInterruptHandler port now s) = oldState s.
Proof.
  unfold buttonInterruptHandler.
  destruct (negb (negb (bitRead port HW_ROTENC_BTN_BIT =? 0)) && oldButtonState s);
    cbn [with_buttonPressTime oldButtonState buttonPressTime];
    destruct (negb (bitRead port HW_ROTENC_BTN_BIT =? 0) && negb (oldButtonState s));
    try (fields; repeat split; reflexivity);
    destruct (_ >? HW_BUTTON_SHORT_CLICK_MIN_TIME);
    cbn [with_buttonState buttonPressTime];
    destruct (_ >? HW_BUTTON_LONG_CLICK_MIN_TIME);
    fields; repeat split; reflexivity.
Qed.

(** *** The range invariant *)

Lemma init_inv : inv init /\ wf init.
Proof.
  unfold inv, wf, int16_range, uint8_range.
  repeat split; vm_compute; congruence.
Qed.

Lemma encoder_inv port s :
  wf s -> inv s ->
  wf (encoderInterruptHandler port s) /\ inv (encoderInterruptHandler port s).
Proof.
  unfold wf, inv; intros (Hc & Hmin & Hmax & Hold) Hinv.
  destruct (encoder_frame port s) as (-> & -> & _ & _ & _ & _ & ->).
  rewrite encoder_counter.
  pose proof (nextOldState_range port _ Hold) as Hidx.
  assert (Hold' : uint8_range (nextOldState port (oldState s)))
    by (unfold uint8_range; lia).
  assert (Hgoal : int16_range (counter_after port s) /\
                  counterMinLimit s <= counter_after port s <= counterMaxLimit s).
  { unfold counter_after.
    pose proof (lookup_values _ Hidx) as Hinc.
    set (increment := lookup (nextOldState port (oldState s))) in *.
    unfold int16_range in *.
    destruct (Z.eqb_spec (counter s) (counterMaxLimit s)) as [Eq | Ne];
      destruct (Z.gtb_spec increment 0) as [Hpos | Hnpos]; cbn [andb].
    - rewrite Z.add_0_r.
      destruct (counterWrap s); rewrite wrap16_id; unfold int16_range; lia.
    - destruct (Z.eqb_spec (counter s) (counterMinLimit s)) as [Eq' | Ne'];
        destruct (Z.ltb_spec increment 0) as [Hneg | Hnneg]; cbn [andb].
      + rewrite Z.add_0_r.
        destruct (counterWrap s); rewrite wrap16_id; unfold int16_range; lia.
      + rewrite wrap16_id; unfold int16_range; lia.
      + rewrite wrap16_id; unfold int16_range; lia.
      + rewrite wrap16_id; unfold int16_range; lia.
    - destruct (Z.eqb_spec (counter s) (counterMinLimit s)) as [Eq' | Ne'];
        destruct (Z.ltb_spec increment 0) as [Hneg | Hnneg]; cbn [andb].
      + lia.
      + rewrite wrap16_id; unfold int16_range; lia.
      + lia.
      + rewrite wrap16_id; unfold int16_range; lia.
    - destruct (Z.eqb_spec (counter s) (counterMinLimit s)) as [Eq' | Ne'];
        destruct (Z.ltb_spec increment 0) as [Hneg | Hnneg]; cbn [andb].
      + rewrite Z.add_0_r.
        destruct (counterWrap s); rewrite wrap16_id; unfold int16_range; lia.
      + rewrite wrap16_id; unfold int16_range; lia.
      + rewrite wrap16_id; unfold int16_range; lia.
      + rewrite wrap16_id; unfold int16_range; lia. }
  tauto.
Qed.

Lemma setCounter_true_lt (counterValue minLimit maxLimit : Z) (wrap : bool) (s : t) :
  fst (setCounter counterValue minLimit maxLimit wrap s) = true ->
  minLimit < maxLimit.
Proof.
  unfold setCounter.
  destruct (Z.geb_spec minLimit maxLimit); cbn [fst]; [ discriminate | lia ].
Qed.

Lemma setCounter_inv (counterValue minLimit maxLimit : Z) (wrap : bool) (s : t) :
  wf s ->
  minLimit < maxLimit ->
  limits_meet_range minLimit maxLimit ->
  wf (snd (setCounter counterValue minLimit maxLimit wrap s)) /\
  inv (snd (setCounter counterValue minLimit maxLimit wrap s)).
Proof.
  unfold wf, inv, limits_meet_range.
  intros (_ & _ & _ & Hold) Hlt [Hmin Hmax].
  rewrite setCounter_success by exact Hlt.
  destruct limit_ranges as [Emin Emax]; rewrite Emin, Emax in *.
  fields; cbv zeta.
  set (lo := Z.max minLimit (-8191)).
  set (hi := Z.min maxLimit 8190).
  set (v := if Z.min counterValue hi <? lo then lo else Z.min counterValue hi).
  assert (Hlo : -8191 <= lo <= 8190) by (subst lo; lia).
  assert (Hhi : -8191 <= hi <= 8190) by (subst hi; lia).
  assert (Hv : lo <= v <= hi)
    by (subst v lo hi;
        destruct (Z.ltb_spec (Z.min counterValue (Z.min maxLimit 8190))
                             (Z.max minLimit (-8191))); lia).
  unfold HW_ROTENC_CYCLES_PER_DETENT.
  rewrite !wrap16_id by (unfold int16_range; lia).
  unfold int16_range; repeat split; try lia; apply Hold.
Qed.

Lemma button_inv port now s :
  wf s -> inv s ->
  wf (buttonInterruptHandler port now s) /\ inv (buttonInterruptHandler port now s).
Proof.
  unfold wf, inv.
  destruct (button_frame port now s) as (-> & -> & -> & _ & ->); tauto.
Qed.

(** The invariant holds in every state reached through [setCounter]
    calls whose limits leave a non-empty range after clamping. *)
Lemma reachable_inv s : reachable limits_meet_range s -> wf s /\ inv s.
Proof.
  induction 1 as [ | v mn mx w s Hs [IHwf IHinv] _ _ _ Hok Hsucc
                   | port s Hs [IHwf IHinv]
                   | port now s Hs [IHwf IHinv]
                   | s Hs [IHwf IHinv] ].
  - destruct init_inv; split; assumption.
  - apply setCounter_inv; [ exact IHwf | | exact Hok ].
    exact (setCounter_true_lt _ _ _ _ _ Hsucc).
  - apply encoder_inv; assumption.
  - apply button_inv; assumption.
  - unfold getButtonState, wf, inv in *; fields; tauto.
Qed.

(** C1 at the input where the code leaves the range: both limits above
    [maxLimitRange].  [setCounter(0, 8191, 8192, false)] on the
    constructed object passes the [minLimit >= maxLimit] test, lowers
    only [maxLimit] to 8190 and then raises the counter to the
    unclamped [minLimit]; it returns [true] with the counter above
    [counterMaxLimit]. *)
Theorem setCounter_limits_above_range :
  let r := setCounter 0 8191 8192 false init in
  reachable any_limits (snd r) /\
  fst r = true /\
  counter (snd r) = 32764 /\
  counterMinLimit (snd r) = 32764 /\
  counterMaxLimit (snd r) = 32760 /\
  ~ inv (snd r).
Proof.
  cbv zeta; split.
  - apply reach_setCounter;
      [ apply reach_init
      | unfold int16_range; lia
      | unfold int16_range; lia
      | unfold int16_range; lia
      | exact I
      | reflexivity ].
  - repeat split; try reflexivity.
    unfold inv; vm_compute; intros [_ H]; apply H; reflexivity.
Qed.

(** *** Limits and the lookup table *)

(** C4: at [counterMaxLimit] with a positive increment the handler
    leaves the counter at [counterMinLimit] when wrapping and at
    [counterMaxLimit] otherwise, and adds nothing more; likewise at
    [counterMinLimit] with a negative increment.  After
    [setCounter(0, -10, 10, wrap)] each of forty backward steps takes
    one off the counter, the ten detents they make up bring
    [getCounter] from 0 down to -10 one by one, and one more backward
    step gives -10 without wrap and 10 with wrap. *)
Theorem encoder_at_limit :
  (forall port s,
      wf s ->
      counter s = counterMaxLimit s ->
      lookup (nextOldState port (oldState s)) > 0 ->
      counter (encoderInterruptHandler port s) =
      if counterWrap s then counterMinLimit s else counterMaxLimit s) /\
  (forall port s,
      wf s ->
      counter s = counterMinLimit s ->
      lookup (nextOldState port (oldState s)) < 0 ->
      counter (encoderInterruptHandler port s) =
      if counterWrap s then counterMaxLimit s else counterMinLimit s) /\
  (forall wrap,
      let s0 := snd (setCounter 0 (-10) 10 wrap init) in
      let s1 := encoder_run (backward_detents 10) s0 in
      map (fun k => counter (encoder_run (firstn k (backward_detents 10)) s0))
          (seq 0 41) =
        map (fun k => - Z.of_nat k) (seq 0 41) /\
      map (fun n => getCounter (encoder_run (backward_detents n) s0)) (seq 0 11) =
        [0; -1; -2; -3; -4; -5; -6; -7; -8; -9; -10] /\
      lookup (nextOldState (port_of_sample 1) (oldState s1)) = -1 /\
      getCounter (encoderInterruptHandler (port_of_sample 1) s1) =
        if wrap then 10 else -10).
Proof.
  split; [ | split ].
  - intros port s (Hc & Hmin & Hmax & _) Eq Hpos.
    rewrite encoder_counter; unfold counter_after.
    rewrite Eq, Z.eqb_refl.
    destruct (Z.gtb_spec (lookup (nextOldState port (oldState s))) 0); [ | lia ].
    cbn [andb]; rewrite Z.add_0_r.
    destruct (counterWrap s); apply wrap16_id; assumption.
  - intros port s (Hc & Hmin & Hmax & _) Eq Hneg.
    rewrite encoder_counter; unfold counter_after.
    destruct (Z.gtb_spec (lookup (nextOldState port (oldState s))) 0); [ lia | ].
    rewrite andb_false_r, Eq, Z.eqb_refl.
    destruct (Z.ltb_spec (lookup (nextOldState port (oldState s))) 0); [ | lia ].
    cbn [andb]; rewrite Z.add_0_r.
    destruct (counterWrap s); apply wrap16_id; assumption.
  - intros [ | ]; repeat split; vm_compute; reflexivity.
Qed.

Lemma encoder_at_limit_witness :
  let s := encoder_run (backward_detents 10) (snd (setCounter 0 (-10) 10 true init)) in
  counter (encoderInterruptHandler (port_of_sample 1) s) = counterMaxLimit s.
Proof.
  intros s.
  destruct encoder_at_limit as (_ & Hmin & _).
  apply (Hmin (port_of_sample 1) s).
  - unfold wf, int16_range, uint8_range; vm_compute; intuition congruence.
  - reflexivity.
  - vm_compute; reflexivity.
Defined.

Lemma lookup_degenerate idx :
  0 <= idx < 16 ->
  (lookup idx = 0 <-> degenerate (idx / 4) (idx mod 4)).
Proof.
  intros H; unfold degenerate.
  assert (E : Bool.eqb (lookup idx =? 0)
                ((idx / 4 =? idx mod 4) || (Z.lxor (idx / 4) (idx mod 4) =? 3)) = true).
  { apply (range_forallb
             (fun i => Bool.eqb (lookup i =? 0)
                         ((i / 4 =? i mod 4) || (Z.lxor (i / 4) (i mod 4) =? 3))) 16);
      [ vm_compute; reflexivity | lia ]. }
  apply eqb_prop in E.
  rewrite <- Z.eqb_eq, E, orb_true_iff, !Z.eqb_eq; tauto.
Qed.

Lemma lookup_single_step idx :
  0 <= idx < 16 ->
  (lookup idx = 1 \/ lookup idx = -1 <-> single_step (idx / 4) (idx mod 4)).
Proof.
  intros H; unfold single_step.
  assert (E : Bool.eqb ((lookup idx =? 1) || (lookup idx =? -1))
                ((Z.lxor (idx / 4) (idx mod 4) =? 1)
                 || (Z.lxor (idx / 4) (idx mod 4) =? 2)) = true).
  { apply (range_forallb
             (fun i => Bool.eqb ((lookup i =? 1) || (lookup i =? -1))
                         ((Z.lxor (i / 4) (i mod 4) =? 1)
                          || (Z.lxor (i / 4) (i mod 4) =? 2))) 16);
      [ vm_compute; reflexivity | lia ]. }
  apply eqb_prop in E.
  rewrite <- !Z.eqb_eq, <- !orb_true_iff, E; tauto.
Qed.

(** C9: a history index whose two samples are equal or differ in both
    bits looks up increment 0, and only those do; the nonzero entries
    are +1 and -1 and sit exactly at the indices whose samples differ
    in one bit.  An interrupt that presents such a degenerate transition
    leaves the counter as it was. *)
Theorem degenerate_transition_ignored :
  (forall idx, 0 <= idx < 16 ->
      (lookup idx = 0 <-> degenerate (idx / 4) (idx mod 4)) /\
      (lookup idx = 1 \/ lookup idx = -1 <-> single_step (idx / 4) (idx mod 4))) /\
  (forall port s,
      wf s ->
      degenerate (oldState s mod 4) (sample port) ->
      lookup (nextOldState port (oldState s)) = 0 /\
      counter (encoderInterruptHandler port s) = counter s).
Proof.
  split.
  - intros idx H; split;
      [ apply lookup_degenerate | apply lookup_single_step ]; exact H.
  - intros port s (Hc & _ & _ & Hold) Hdeg.
    pose proof (nextOldState_range port _ Hold) as Hidx.
    pose proof (sample_range port) as Hs.
    pose proof (Z.mod_pos_bound (oldState s) 4 eq_refl) as Hp.
    assert (Hzero : lookup (nextOldState port (oldState s)) = 0).
    { apply lookup_degenerate; [ exact Hidx | ].
      rewrite nextOldState_index by exact Hold.
      replace ((oldState s mod 4 * 4 + sample port) / 4) with (oldState s mod 4)
        by (apply Z.div_unique with (r := sample port); lia).
      replace ((oldState s mod 4 * 4 + sample port) mod 4) with (sample port)
        by (apply Z.mod_unique with (q := oldState s mod 4); lia).
      exact Hdeg. }
    split; [ exact Hzero | ].
    rewrite encoder_counter; unfold counter_after; rewrite Hzero.
    cbn [Z.gtb Z.ltb Z.compare]; rewrite !andb_false_r, Z.add_0_r.
    apply wrap16_id; exact Hc.
Qed.

Lemma degenerate_transition_ignored_witness :
  let s := encoder_run (map port_of_sample [1; 3]) (snd (setCounter 0 (-10) 10 false init)) in
  counter s = -2 /\
  counter (encoderInterruptHandler (port_of_sample 0) s) = -2 /\
  counter (encoderInterruptHandler (port_of_sample 3) s) = -2.
Proof.
  intros s.
  destruct degenerate_transition_ignored as [_ Hkeep].
  assert (Hwf : wf s)
    by (unfold wf, int16_range, uint8_range; vm_compute; intuition congruence).
  split; [ reflexivity | split ].
  - apply (Hkeep (port_of_sample 0) s Hwf); right; reflexivity.
  - apply (Hkeep (port_of_sample 3) s Hwf); left; reflexivity.
Defined.

(** *** The button *)

Lemma button_state_after port now s :
  buttonState (buttonInterruptHandler port now s) =
  if release_edge port s
  then classify (held_time now s) (buttonState s)
  else buttonState s.
Proof.
  unfold buttonInterruptHandler, release_edge, classify, held_time.
  destruct (bitRead port HW_ROTENC_BTN_BIT =? 0), (oldButtonState s) eqn:Eold;
    cbn [negb andb]; fields; rewrite ?Eold; cbn [negb andb]; fields;
    try reflexivity.
  destruct (wrap_u32 (now - buttonPressTime s) >? HW_BUTTON_SHORT_CLICK_MIN_TIME);
    fields;
    destruct (wrap_u32 (now - buttonPressTime s) >? HW_BUTTON_LONG_CLICK_MIN_TIME);
    reflexivity.
Qed.

Lemma button_statics_after port now s :
  oldButtonState (buttonInterruptHandler port now s) =
    negb (bitRead port HW_ROTENC_BTN_BIT =? 0) /\
  buttonPressTime (buttonInterruptHandler port now s) =
    if press_edge port s then now else buttonPressTime s.
Proof.
  unfold buttonInterruptHandler, press_edge.
  destruct (bitRead port HW_ROTENC_BTN_BIT =? 0), (oldButtonState s) eqn:Eold;
    cbn [negb andb]; fields; rewrite ?Eold; cbn [negb andb]; fields;
    try (split; reflexivity).
  destruct (wrap_u32 (now - buttonPressTime s) >? HW_BUTTON_SHORT_CLICK_MIN_TIME);
    fields;
    destruct (wrap_u32 (now - buttonPressTime s) >? HW_BUTTON_LONG_CLICK_MIN_TIME);
    split; reflexivity.
Qed.

(** C7: on a release edge the held duration is the clock value less the
    recorded press time, in 32-bit arithmetic.  Above the long-click
    threshold the pending state becomes [BUTTON_LONG_CLICK]; above the
    short-click threshold and not above the long one it becomes
    [BUTTON_SHORT_CLICK]; at or below the short threshold it is left as
    it was. *)
Theorem release_classifies_hold (port now : Z) (s : t) :
  bitRead port HW_ROTENC_BTN_BIT = 1 ->
  oldButtonState s = false ->
  let held := wrap_u32 (now - buttonPressTime s) in
  let s' := buttonInterruptHandler port now s in
  (0 <= buttonPressTime s <= now /\ uint32_range now ->
   held = now - buttonPressTime s) /\
  buttonState s' = classify held (buttonState s) /\
  (held > HW_BUTTON_LONG_CLICK_MIN_TIME ->
   buttonState s' = BUTTON_LONG_CLICK) /\
  (HW_BUTTON_SHORT_CLICK_MIN_TIME < held <= HW_BUTTON_LONG_CLICK_MIN_TIME ->
   buttonState s' = BUTTON_SHORT_CLICK) /\
  (held <= HW_BUTTON_SHORT_CLICK_MIN_TIME ->
   buttonState s' = buttonState s).
Proof.
  intros Hbit Hold held s'.
  assert (Hstate : buttonState s' = classify held (buttonState s)).
  { subst s' held; rewrite button_state_after.
    unfold release_edge; rewrite Hbit, Hold; reflexivity. }
  split; [ | split; [ exact Hstate | ] ].
  - unfold uint32_range; intros [Hpress Hnow].
    subst held; unfold wrap_u32; apply Z.mod_small; lia.
  - rewrite Hstate; unfold classify.
    unfold HW_BUTTON_LONG_CLICK_MIN_TIME, HW_BUTTON_SHORT_CLICK_MIN_TIME.
    destruct (Z.gtb_spec held 500), (Z.gtb_spec held 20);
      repeat split; intros; try reflexivity; lia.
Qed.

(** A press at 1000 ms released at 1100 ms from the constructed
    object. *)
Lemma release_classifies_hold_witness :
  let pressed := buttonInterruptHandler 0 1000 init in
  buttonState (buttonInterruptHandler 16 1100 pressed) = BUTTON_SHORT_CLICK.
Proof.
  intros pressed.
  destruct (release_classifies_hold 16 1100 pressed eq_refl eq_refl)
    as (_ & _ & _ & Hshort & _).
  apply Hshort; vm_compute; intuition congruence.
Defined.

Lemma isr_button_state port now s :
  buttonState (isr port now s) =
  if release_edge port s
  then classify (held_time now s) (buttonState s)
  else buttonState s.
Proof.
  unfold isr; rewrite button_state_after.
  destruct (encoder_frame port s) as (_ & _ & _ & Eb & Eo & Ep & _).
  unfold release_edge, held_time; rewrite Eb, Eo, Ep; reflexivity.
Qed.

Lemma quiet_keeps_button_state events :
  forall s, quiet events s -> buttonState (isr_run events s) = buttonState s.
Proof.
  unfold isr_run.
  induction events as [ | e events IH ]; intros s Hq; [ reflexivity | ].
  destruct Hq as [Hno Hq]; cbn [fold_left].
  rewrite (IH _ Hq), isr_button_state.
  unfold clicks in Hno; unfold classify.
  destruct (release_edge (fst e) s); [ | reflexivity ].
  cbn [andb] in Hno.
  destruct (Z.gtb_spec (held_time (snd e) s) HW_BUTTON_LONG_CLICK_MIN_TIME) as [Hl | _].
  - rewrite Z.gtb_ltb in Hno; apply Z.ltb_ge in Hno.
    unfold HW_BUTTON_LONG_CLICK_MIN_TIME, HW_BUTTON_SHORT_CLICK_MIN_TIME in *; lia.
  - rewrite Hno; reflexivity.
Qed.

(** C8: [getButtonState] returns the pending state and leaves
    [BUTTON_NONE] pending, the other fields as they were.  Whatever the
    first call returned, the next call returns [BUTTON_NONE] when the
    interrupts in between complete no click. *)
Theorem getButtonState_read_and_clear (s : t) (events : list (Z * Z)) :
  let s1 := snd (getButtonState s) in
  fst (getButtonState s) = buttonState s /\
  s1 = with_buttonState BUTTON_NONE s /\
  fst (getButtonState s1) = BUTTON_NONE /\
  (quiet events s1 ->
   fst (getButtonState (isr_run events s1)) = BUTTON_NONE).
Proof.
  cbv zeta; unfold getButtonState; fields.
  repeat split.
  intros Hq; rewrite (quiet_keeps_button_state _ _ Hq); reflexivity.
Qed.

(** A short click is pending; it is read; the shaft turns and the
    button goes down again without coming up; the next read finds
    nothing. *)
Lemma getButtonState_read_and_clear_witness :
  let s := buttonInterruptHandler 16 1100 (buttonInterruptHandler 0 1000 init) in
  let events := [(4, 1200); (12, 1210); (8, 1300); (0, 1400)] in
  fst (getButtonState s) = BUTTON_SHORT_CLICK /\
  fst (getButtonState (isr_run events (snd (getButtonState s)))) = BUTTON_NONE.
Proof.
  intros s events.
  destruct (getButtonState_read_and_clear s events) as (_ & _ & _ & Hnext).
  split; [ reflexivity | ].
  apply Hnext; vm_compute; intuition congruence.
Defined.

End RotEncFacts.

(** ** Neopixel transmitter *)

Module NeopixelFacts.
Import Fixed Hardware Neopixel FixedFacts.

Lemma appends_refl m : appends [] m m.
Proof. unfold appends; cbn [map]; rewrite app_nil_r; split; reflexivity. Qed.

Lemma appends_trans l1 l2 m m1 m2 :
  appends l1 m m1 -> appends l2 m1 m2 -> appends (l1 ++ l2) m m2.
Proof.
  unfold appends; intros [E1 W1] [E2 W2]; split.
  - congruence.
  - rewrite W2, W1, E1, map_app, app_assoc; reflexivity.
Qed.

Lemma appends_emit o m : appends [o] m (emit o m).
Proof. unfold appends, emit; cbn; split; reflexivity. Qed.

Lemma appends_rept count o : forall m, appends (repeat o count) m (rept count o m).
Proof.
  induction count as [ | count IH ]; intros m; cbn [rept repeat].
  - apply appends_refl.
  - change (o :: repeat o count) with ([o] ++ repeat o count).
    eapply appends_trans; [ apply appends_emit | apply IH ].
Qed.

Lemma appends_for_upto (code : Z -> list op) (body : Z -> mcu -> mcu) :
  (forall i m, appends (code i) m (body i m)) ->
  forall count i m,
    appends (concat (map code (indices i count))) m (for_upto count i body m).
Proof.
  intros Hbody; unfold indices.
  induction count as [ | count IH ]; intros i m; cbn [for_upto].
  - apply appends_refl.
  - cbn [seq map concat]; rewrite Z.add_0_r.
    eapply appends_trans; [ apply Hbody | ].
    replace (map (fun k => i + Z.of_nat k) (seq 1 count))
      with (map (fun k => i + 1 + Z.of_nat k) (seq 0 count));
      [ apply IH | ].
    rewrite <- seq_shift, map_map.
    apply map_ext; intros k; lia.
Qed.

Section WithClock.
Variable F_CPU : Z.

Lemma appends_asm_pulse onCycles offCycles m :
  appends (pulse onCycles offCycles) m (asm_pulse onCycles offCycles m).
Proof.
  unfold pulse, asm_pulse.
  repeat (eapply appends_trans;
          [ first [ apply appends_emit | apply appends_rept ] | ]).
  apply appends_rept.
Qed.

Lemma appends_sendBit bitValue m :
  appends (bit_code F_CPU bitValue) m (sendBit F_CPU bitValue m).
Proof. destruct bitValue; apply appends_asm_pulse. Qed.

(** The bit [sendByte] hands to [sendBit] is bit 7 of its argument. *)
Lemma bitRead_7_testbit input :
  negb (bitRead input 7 =? 0) = Z.testbit input 7.
Proof.
  unfold bitRead.
  replace (Z.land (Z.shiftr input 7) 1) with (Z.shiftr input 7 mod 2)
    by (symmetry; apply (Z.land_ones (Z.shiftr input 7) 1); lia).
  rewrite <- Z.bit0_mod, Z.shiftr_spec by lia.
  cbn [Z.add]; destruct (Z.testbit input 7); reflexivity.
Qed.

(** [input <<= 1] on a byte moves every bit up one place. *)
Lemma shifted_byte_testbit input k :
  1 <= k < 8 ->
  Z.testbit (wrap_u8 (Z.shiftl input 1)) k = Z.testbit input (k - 1).
Proof.
  intros Hk; unfold wrap_u8.
  change 256 with (2 ^ 8).
  rewrite Z.mod_pow2_bits_low by lia.
  apply Z.shiftl_spec; lia.
Qed.

Lemma appends_sendByte_loop count :
  forall input m,
    (count <= 8)%nat ->
    appends
      (concat (map (fun j => bit_code F_CPU (Z.testbit input (7 - Z.of_nat j)))
                   (seq 0 count)))
      m (sendByte_loop F_CPU count input m).
Proof.
  induction count as [ | count IH ]; intros input m Hcount; cbn [sendByte_loop].
  - apply appends_refl.
  - cbn [seq map concat].
    change (7 - Z.of_nat 0) with 7.
    apply appends_trans
      with (m1 := sendBit F_CPU (negb (bitRead input 7 =? 0)) m).
    + rewrite bitRead_7_testbit; apply appends_sendBit.
    + replace (map (fun j => bit_code F_CPU (Z.testbit input (7 - Z.of_nat j)))
                   (seq 1 count))
        with (map (fun j => bit_code F_CPU
                              (Z.testbit (wrap_u8 (Z.shiftl input 1))
                                         (7 - Z.of_nat j)))
                  (seq 0 count));
        [ apply IH; lia | ].
      rewrite <- seq_shift, map_map.
      apply map_ext_in; intros j Hj; apply in_seq in Hj.
      rewrite shifted_byte_testbit by lia.
      do 2 f_equal; lia.
Qed.

Lemma appends_sendByte input m :
  appends (byte_code F_CPU input) m (sendByte F_CPU input m).
Proof.
  unfold sendByte.
  exact (appends_sendByte_loop 8 input m (le_n 8)).
Qed.

Lemma appends_sendRgb r g b m :
  appends (triplet_code F_CPU r g b) m (sendRgb F_CPU r g b m).
Proof.
  unfold triplet_code, sendRgb.
  eapply appends_trans; [ apply appends_sendByte | ].
  eapply appends_trans; apply appends_sendByte.
Qed.

Lemma appends_show m :
  appends [DelayMicroseconds 7] m (show m).
Proof. unfold show; apply appends_emit. Qed.

Lemma bit_code_no_delay v : existsb is_delay (bit_code F_CPU v) = false.
Proof.
  assert (Hnops : forall n, existsb is_delay (repeat Nop n) = false)
    by (induction n; [ reflexivity | assumption ]).
  destruct v; unfold bit_code, pulse;
    rewrite !existsb_app, !Hnops; reflexivity.
Qed.

Lemma concat_no_delay (ls : list (list op)) :
  Forall (fun l => existsb is_delay l = false) ls ->
  existsb is_delay (concat ls) = false.
Proof.
  induction 1 as [ | l ls Hl _ IH ]; cbn [concat];
    [ reflexivity | rewrite existsb_app, Hl, IH; reflexivity ].
Qed.

Lemma triplet_code_no_delay r g b :
  existsb is_delay (triplet_code F_CPU r g b) = false.
Proof.
  assert (Hbyte : forall x, existsb is_delay (byte_code F_CPU x) = false).
  { intros x; apply concat_no_delay, Forall_map, Forall_forall.
    intros v _; apply bit_code_no_delay. }
  unfold triplet_code; rewrite !existsb_app, !Hbyte; reflexivity.
Qed.

(** What a transmission adds to the machine state, given its pixel
    data: the operations all run with interrupts suspended. *)
Lemma transmission (frame : list op) (m m2 : mcu) :
  appends frame (noInterrupts m) m2 ->
  wire (show m2) = wire m ++ map (pair false) (frame ++ [DelayMicroseconds 7]).
Proof.
  intros Hframe.
  pose proof (appends_trans _ _ _ _ _ Hframe (appends_show m2)) as [_ Hw].
  exact Hw.
Qed.

Lemma since_app (m m' : mcu) (l : list (bool * op)) :
  wire m' = wire m ++ l -> since m m' = l.
Proof.
  unfold since; intros ->.
  rewrite skipn_app, skipn_all, Nat.sub_diag; reflexivity.
Qed.

Lemma ops_app (m m' : mcu) (f : bool) (l : list op) :
  wire m' = wire m ++ map (pair f) l -> ops m' = ops m ++ l.
Proof.
  unfold ops; intros ->.
  rewrite map_app, map_map; cbn [snd]; rewrite map_id; reflexivity.
Qed.

Lemma setUniformColour_wire r g b m :
  wire (setUniformColour F_CPU r g b m) =
  wire m ++
  map (pair false)
      (concat (repeat (triplet_code F_CPU r g b) (Z.to_nat HW_NEOPIXEL_NUMBER))
       ++ [DelayMicroseconds 7]).
Proof.
  unfold setUniformColour; cbv zeta.
  change (wire (noInterrupts ?x)) with (wire x).
  apply transmission.
  pose proof (appends_for_upto (fun _ => triplet_code F_CPU r g b)
                (fun _ => sendRgb F_CPU r g b)
                (fun _ m' => appends_sendRgb r g b m')
                (Z.to_nat HW_NEOPIXEL_NUMBER) 0 (noInterrupts m)) as H.
  unfold indices in H; rewrite map_map, map_const, length_seq in H.
  exact H.
Qed.

Lemma suspended_since (m m' : mcu) (l : list op) :
  wire m' = wire m ++ map (pair false) l ->
  Forall (fun e => fst e = false) (since m m').
Proof.
  intros Hw; rewrite (since_app _ _ _ Hw).
  apply Forall_map, Forall_forall; intros o _; reflexivity.
Qed.

(** C5: [setUniformColour] puts on the wire the triplet of the colour
    once per pixel of the strip, each triplet the green byte, the red
    byte, the blue byte, each byte its bits 7 down to 0, then one
    [delayMicroseconds] of 7 microseconds, which is no shorter than
    [HW_NEOPIXEL_RES] nanoseconds; the pixel data holds no other wait. *)
Theorem setUniformColour_stream (r g b : Z) (m : mcu) :
  let K := Z.to_nat HW_NEOPIXEL_NUMBER in
  let triplet :=
    concat (map (bit_code F_CPU) (map (Z.testbit g) [7; 6; 5; 4; 3; 2; 1; 0]))
    ++ concat (map (bit_code F_CPU) (map (Z.testbit r) [7; 6; 5; 4; 3; 2; 1; 0]))
    ++ concat (map (bit_code F_CPU) (map (Z.testbit b) [7; 6; 5; 4; 3; 2; 1; 0])) in
  K = 32%nat /\
  ops (setUniformColour F_CPU r g b m) =
    ops m ++ concat (repeat triplet K) ++ [DelayMicroseconds 7] /\
  existsb is_delay (concat (repeat triplet K)) = false /\
  7 * nanosecPerMiscrosec >= HW_NEOPIXEL_RES.
Proof.
  intros K triplet.
  change triplet with (triplet_code F_CPU r g b).
  split; [ reflexivity | split; [ | split ] ].
  - apply (ops_app m _ false), setUniformColour_wire.
  - apply concat_no_delay, Forall_forall.
    intros l Hl; apply repeat_spec in Hl; subst l.
    apply triplet_code_no_delay.
  - unfold nanosecPerMiscrosec, HW_NEOPIXEL_RES; lia.
Qed.

(** C2, as the code has it: every operation of the transmission runs
    with interrupts suspended, and they are still suspended when
    [setUniformColour] returns, whatever the colour and the state
    before the call.  The call that follows [show()] is a second
    [noInterrupts()]. *)
Theorem setUniformColour_returns_suspended (r g b : Z) (m : mcu) :
  Forall (fun e => fst e = false) (since m (setUniformColour F_CPU r g b m)) /\
  interruptsEnabled (setUniformColour F_CPU r g b m) = false.
Proof.
  split.
  - eapply suspended_since, setUniformColour_wire.
  - reflexivity.
Qed.

Lemma indexed_pixels count :
  forall r g b : list Z,
    (count <= length r)%nat -> (count <= length g)%nat -> (count <= length b)%nat ->
    map (fun k => (nth k r 0, (nth k g 0, nth k b 0))) (seq 0 count) =
    pixels count r g b.
Proof.
  unfold pixels.
  induction count as [ | count IH ]; intros r g b Hr Hg Hb; [ reflexivity | ].
  destruct r as [ | r0 r ], g as [ | g0 g ], b as [ | b0 b ];
    cbn [length] in Hr, Hg, Hb; try lia.
  cbn [seq map firstn combine nth]; f_equal.
  rewrite <- seq_shift, map_map; cbn [nth].
  apply IH; lia.
Qed.

Lemma pixels_length count (r g b : list Z) :
  (count <= length r)%nat -> (count <= length g)%nat -> (count <= length b)%nat ->
  length (pixels count r g b) = count.
Proof.
  intros Hr Hg Hb; unfold pixels.
  rewrite !length_combine, !length_firstn; lia.
Qed.

Lemma setFromArray_wire (r g b : list Z) (m : mcu) :
  let K := Z.to_nat HW_NEOPIXEL_NUMBER in
  (K <= length r)%nat -> (K <= length g)%nat -> (K <= length b)%nat ->
  wire (setFromArray F_CPU r g b m) =
  wire m ++
  map (pair false) (frame_code F_CPU (pixels K r g b) ++ [DelayMicroseconds 7]).
Proof.
  intros K Hr Hg Hb.
  unfold setFromArray; cbv zeta.
  change (wire (interrupts ?x)) with (wire x).
  apply transmission.
  pose proof (appends_for_upto
                (fun i => triplet_code F_CPU (nth (Z.to_nat i) r 0)
                            (nth (Z.to_nat i) g 0) (nth (Z.to_nat i) b 0))
                (fun i => sendRgb F_CPU (nth (Z.to_nat i) r 0)
                            (nth (Z.to_nat i) g 0) (nth (Z.to_nat i) b 0))
                (fun i m' => appends_sendRgb _ _ _ m')
                K 0 (noInterrupts m)) as H.
  replace (frame_code F_CPU (pixels K r g b))
    with (concat
            (map (fun i => triplet_code F_CPU (nth (Z.to_nat i) r 0)
                             (nth (Z.to_nat i) g 0) (nth (Z.to_nat i) b 0))
                 (indices 0 K))); [ exact H | ].
  unfold frame_code, indices.
  rewrite <- (indexed_pixels K r g b Hr Hg Hb), !map_map.
  apply f_equal, map_ext; intros k; cbn [fst snd].
  rewrite Z.add_0_l, Nat2Z.id; reflexivity.
Qed.

Lemma frame_code_repeat (n : nat) (r0 g0 b0 : Z) :
  frame_code F_CPU (repeat (r0, (g0, b0)) n) =
  concat (repeat (triplet_code F_CPU r0 g0 b0) n).
Proof.
  unfold frame_code.
  induction n as [ | n IH ]; [ reflexivity | ].
  cbn [repeat map concat fst snd]; rewrite IH; reflexivity.
Qed.

(** C6: with each array at least as long as the strip, [setFromArray]
    puts on the wire one green-red-blue triplet per strip position,
    taken from the arrays at that position, then the same 7 microsecond
    wait as [setUniformColour], all of it with interrupts suspended; on
    arrays that hold one colour throughout, the wire carries what
    [setUniformColour] sends for that colour. *)
Theorem setFromArray_stream (r g b : list Z) (m : mcu) :
  let K := Z.to_nat HW_NEOPIXEL_NUMBER in
  (K <= length r)%nat -> (K <= length g)%nat -> (K <= length b)%nat ->
  length (pixels K r g b) = K /\
  ops (setFromArray F_CPU r g b m) =
    ops m ++ frame_code F_CPU (pixels K r g b) ++ [DelayMicroseconds 7] /\
  Forall (fun e => fst e = false) (since m (setFromArray F_CPU r g b m)) /\
  (forall r0 g0 b0,
      pixels K r g b = repeat (r0, (g0, b0)) K ->
      ops (setFromArray F_CPU r g b m) = ops (setUniformColour F_CPU r0 g0 b0 m)).
Proof.
  intros K Hr Hg Hb.
  pose proof (setFromArray_wire r g b m Hr Hg Hb) as Hw; fold K in Hw.
  split; [ apply pixels_length; assumption | ].
  split; [ exact (ops_app _ _ _ _ Hw) | ].
  split; [ exact (suspended_since _ _ _ Hw) | ].
  intros r0 g0 b0 Hsame.
  rewrite (ops_app _ _ _ _ Hw), (ops_app _ _ _ _ (setUniformColour_wire r0 g0 b0 m)).
  fold K; rewrite Hsame, frame_code_repeat; reflexivity.
Qed.

End WithClock.

(** Three arrays longer than the strip, on a 16 MHz part. *)
Lemma setFromArray_stream_witness :
  let r := map Z.of_nat (seq 0 40) in
  let g := map Z.of_nat (seq 100 40) in
  let b := repeat 255 32 in
  let m := {| interruptsEnabled := true; wire := [] |} in
  ops (setFromArray 16000000 r g b m) =
  frame_code 16000000 (pixels 32 r g b) ++ [DelayMicroseconds 7].
Proof.
  intros r g b m.
  destruct (setFromArray_stream 16000000 r g b m) as (_ & Hops & _);
    [ vm_compute; lia | vm_compute; lia | vm_compute; lia | ].
  exact Hops.
Defined.

End NeopixelFacts.

(** ** Rotary encoder: further properties *)

Module RotEncExtra.
Import Fixed Hardware RotEnc RotEncSpec ExtraSpec FixedFacts RotEncFacts.

Lemma encoder_wf port s : wf s -> inv s -> wf (encoderInterruptHandler port s).
Proof. intros Hwf Hinv; exact (proj1 (encoder_inv port s Hwf Hinv)). Qed.

(** The counter after one interrupt, under the invariant. *)
Lemma counter_after_advance port s :
  wf s -> inv s ->
  counter_after port s = advance s (lookup (nextOldState port (oldState s))).
Proof.
  unfold wf, inv, counter_after, advance, clamp, int16_range.
  intros (Hc & Hmin & Hmax & Hold) Hinv.
  pose proof (lookup_values _ (nextOldState_range port _ Hold)) as Hinc.
  set (increment := lookup (nextOldState port (oldState s))) in *.
  destruct (Z.eqb_spec (counter s) (counterMaxLimit s)) as [Emax | Nmax];
    destruct (Z.gtb_spec increment 0) as [Hpos | Hnpos]; cbn [andb].
  - rewrite Z.add_0_r.
    destruct (counterWrap s).
    + destruct (Z.gtb_spec (counter s + increment) (counterMaxLimit s)); [ | lia ].
      apply wrap16_id; unfold int16_range; lia.
    + rewrite wrap16_id by (unfold int16_range; lia); lia.
  - destruct (Z.eqb_spec (counter s) (counterMinLimit s)) as [Emin | Nmin];
      destruct (Z.ltb_spec increment 0) as [Hneg | Hnneg]; cbn [andb];
      rewrite ?Z.add_0_r;
      destruct (counterWrap s);
      try (destruct (Z.gtb_spec (counter s + increment) (counterMaxLimit s));
           [ lia | ];
           destruct (Z.ltb_spec (counter s + increment) (counterMinLimit s)));
      rewrite wrap16_id by (unfold int16_range; lia); lia.
  - destruct (Z.eqb_spec (counter s) (counterMinLimit s)) as [Emin | Nmin];
      destruct (Z.ltb_spec increment 0) as [Hneg | Hnneg]; cbn [andb];
      rewrite ?Z.add_0_r;
      destruct (counterWrap s);
      try (destruct (Z.gtb_spec (counter s + increment) (counterMaxLimit s));
           [ lia | ];
           destruct (Z.ltb_spec (counter s + increment) (counterMinLimit s)));
      rewrite wrap16_id by (unfold int16_range; lia); lia.
  - destruct (Z.eqb_spec (counter s) (counterMinLimit s)) as [Emin | Nmin];
      destruct (Z.ltb_spec increment 0) as [Hneg | Hnneg]; cbn [andb];
      rewrite ?Z.add_0_r;
      destruct (counterWrap s);
      try (destruct (Z.gtb_spec (counter s + increment) (counterMaxLimit s));
           [ lia | ];
           destruct (Z.ltb_spec (counter s + increment) (counterMinLimit s)));
      rewrite wrap16_id by (unfold int16_range; lia); lia.
Qed.

(** X1: in every state reached from the constructed object through
    interrupt handler calls, [getButtonState] and successful
    [setCounter] calls whose limits overlap
    [minLimitRange, maxLimitRange], the counter lies between its limits
    and all three fit 16 bits. *)
Theorem reachable_counter_in_limits (s : t) :
  reachable limits_meet_range s ->
  counterMinLimit s <= counter s <= counterMaxLimit s /\
  int16_range (counter s) /\
  int16_range (counterMinLimit s) /\
  int16_range (counterMaxLimit s).
Proof.
  intros Hreach.
  destruct (reachable_inv s Hreach) as [(Hc & Hmin & Hmax & _) Hinv].
  unfold inv in Hinv; tauto.
Qed.

Lemma reachable_counter_in_limits_witness :
  let s := buttonInterruptHandler 0 50
             (encoderInterruptHandler 8
                (snd (setCounter 7 (-20000) 7 true init))) in
  counterMinLimit s <= counter s <= counterMaxLimit s.
Proof.
  intros s.
  apply (reachable_counter_in_limits s).
  apply reach_button, reach_encoder, reach_setCounter.
  - apply reach_init.
  - unfold int16_range; lia.
  - unfold int16_range; lia.
  - unfold int16_range; lia.
  - unfold limits_meet_range; vm_compute; intuition congruence.
  - reflexivity.
Defined.

(** X2: under the invariant one interrupt moves the counter by the
    looked-up increment, except that a step past a limit lands on the
    opposite limit when wrapping and stays on the limit otherwise. *)
Theorem encoder_step_advance (port : Z) (s : t) :
  wf s -> inv s ->
  counter (encoderInterruptHandler port s) =
  advance s (lookup (nextOldState port (oldState s))).
Proof.
  intros Hwf Hinv.
  rewrite encoder_counter; apply counter_after_advance; assumption.
Qed.

Lemma encoder_step_advance_witness :
  let s := snd (setCounter 10 (-10) 10 true init) in
  counter (encoderInterruptHandler (port_of_sample 2) s) = -40.
Proof.
  intros s.
  rewrite (encoder_step_advance (port_of_sample 2) s).
  - reflexivity.
  - unfold wf, int16_range, uint8_range; vm_compute; intuition congruence.
  - unfold inv; vm_compute; intuition congruence.
Defined.

(** One interrupt that stays inside the limits: the counter takes the
    increment, the limits stay, the history ends in the new sample. *)
Lemma encoder_step_inside (port : Z) (s : t) (prev cur : Z) :
  wf s ->
  oldState s mod 4 = prev ->
  sample port = cur ->
  counterMinLimit s <= counter s <= counterMaxLimit s ->
  counterMinLimit s <= counter s + lookup (prev * 4 + cur) <= counterMaxLimit s ->
  let s' := encoderInterruptHandler port s in
  wf s' /\
  counter s' = counter s + lookup (prev * 4 + cur) /\
  counterMinLimit s' = counterMinLimit s /\
  counterMaxLimit s' = counterMaxLimit s /\
  oldState s' mod 4 = cur.
Proof.
  intros Hwf Hprev Hcur Hinv Hroom s'.
  assert (Hinv' : inv s) by exact Hinv.
  pose proof (encoder_wf port s Hwf Hinv') as Hwf'.
  pose proof Hwf as (Hc & Hmin & Hmax & Hold).
  destruct (encoder_frame port s) as (Emin & Emax & _ & _ & _ & _ & Eold).
  pose proof (nextOldState_index port _ Hold) as Eidx.
  rewrite Hprev, Hcur in Eidx.
  subst s'; split; [ exact Hwf' | ].
  split; [ | split; [ exact Emin | split; [ exact Emax | ] ] ].
  - rewrite encoder_counter, counter_after_advance by assumption.
    rewrite Eidx; unfold advance, clamp.
    destruct (counterWrap s);
      [ destruct (Z.gtb_spec (counter s + lookup (prev * 4 + cur)) (counterMaxLimit s));
        [ lia | ];
        destruct (Z.ltb_spec (counter s + lookup (prev * 4 + cur)) (counterMinLimit s));
        lia
      | lia ].
  - rewrite Eold, Eidx.
    pose proof (sample_range port) as Hs; rewrite Hcur in Hs.
    symmetry; apply Z.mod_unique with (q := prev); lia.
Qed.

Lemma encoder_run_cons port ports s :
  encoder_run (port :: ports) s = encoder_run ports (encoderInterruptHandler port s).
Proof. reflexivity. Qed.

(** Four interrupts that each stay inside the limits. *)
Lemma detent_inside (ports : list Z) (s : t) (q1 q2 q3 : Z) (step : Z) :
  wf s ->
  oldState s mod 4 = 0 ->
  map sample ports = [q1; q2; q3; 0] ->
  lookup (0 * 4 + q1) = step -> lookup (q1 * 4 + q2) = step ->
  lookup (q2 * 4 + q3) = step -> lookup (q3 * 4 + 0) = step ->
  (step = 1 \/ step = -1) ->
  counterMinLimit s <= counter s <= counterMaxLimit s ->
  counterMinLimit s <= counter s + 4 * step <= counterMaxLimit s ->
  let s' := encoder_run ports s in
  counter s' = counter s + 4 * step /\ oldState s' mod 4 = 0 /\ wf s'.
Proof.
  intros Hwf Hold Hports L1 L2 L3 L4 Hstep Hinv Hroom.
  destruct ports as [ | p1 [ | p2 [ | p3 [ | p4 [ | ? ? ] ] ] ] ];
    try discriminate Hports.
  injection Hports as S1 S2 S3 S4.
  cbv zeta; rewrite !encoder_run_cons; unfold encoder_run; cbn [fold_left].
  destruct (encoder_step_inside p1 s 0 q1 Hwf Hold S1 Hinv)
    as (W1 & C1 & Mn1 & Mx1 & O1); [ rewrite L1; lia | ].
  destruct (encoder_step_inside p2 _ q1 q2 W1 O1 S2)
    as (W2 & C2 & Mn2 & Mx2 & O2);
    [ rewrite Mn1, Mx1, C1, L1; lia | rewrite Mn1, Mx1, C1, L1, L2; lia | ].
  destruct (encoder_step_inside p3 _ q2 q3 W2 O2 S3)
    as (W3 & C3 & Mn3 & Mx3 & O3);
    [ rewrite Mn2, Mx2, C2, Mn1, Mx1, C1, L1, L2; lia
    | rewrite Mn2, Mx2, C2, Mn1, Mx1, C1, L1, L2, L3; lia | ].
  destruct (encoder_step_inside p4 _ q3 0 W3 O3 S4)
    as (W4 & C4 & Mn4 & Mx4 & O4);
    [ rewrite Mn3, Mx3, C3, Mn2, Mx2, C2, Mn1, Mx1, C1, L1, L2, L3; lia
    | rewrite Mn3, Mx3, C3, Mn2, Mx2, C2, Mn1, Mx1, C1, L1, L2, L3, L4; lia | ].
  split; [ | split; [ exact O4 | exact W4 ] ].
  rewrite C4, C3, C2, C1, L1, L2, L3, L4; lia.
Qed.

(** X3: from a rest position (both lines low at the last interrupt) the
    four interrupts of a detent turned forward add 4 to the counter
    when that stays within the limits, and those of a detent turned
    backward take 4 off; other port bits play no part.  On a counter
    that is a multiple of the sub-step count [getCounter] then moves
    by exactly one. *)
Theorem detent_moves_one (ports : list Z) (s : t) (q : Z) :
  wf s ->
  oldState s mod 4 = 0 ->
  counter s = q * HW_ROTENC_CYCLES_PER_DETENT ->
  counterMinLimit s <= counter s <= counterMaxLimit s ->
  (map sample ports = forward_samples ->
   counter s + 4 <= counterMaxLimit s ->
   counter (encoder_run ports s) = counter s + 4 /\
   getCounter (encoder_run ports s) = q + 1 /\
   oldState (encoder_run ports s) mod 4 = 0) /\
  (map sample ports = backward_samples ->
   counterMinLimit s <= counter s - 4 ->
   counter (encoder_run ports s) = counter s - 4 /\
   getCounter (encoder_run ports s) = q - 1 /\
   oldState (encoder_run ports s) mod 4 = 0).
Proof.
  intros Hwf Hold Hq Hinv.
  unfold HW_ROTENC_CYCLES_PER_DETENT in Hq.
  split; intros Hports Hroom.
  - destruct (detent_inside ports s 2 3 1 1 Hwf Hold Hports
                eq_refl eq_refl eq_refl eq_refl (or_introl eq_refl) Hinv)
      as (Hc & Ho & (Hc16 & _)); [ lia | ].
    split; [ lia | split; [ | exact Ho ] ].
    unfold getCounter, HW_ROTENC_CYCLES_PER_DETENT.
    replace (counter (encoder_run ports s)) with ((q + 1) * 4) in * by lia.
    rewrite Z.quot_mul by lia.
    apply wrap16_id; unfold int16_range in *; lia.
  - destruct (detent_inside ports s 1 3 2 (-1) Hwf Hold Hports
                eq_refl eq_refl eq_refl eq_refl (or_intror eq_refl) Hinv)
      as (Hc & Ho & (Hc16 & _)); [ lia | ].
    split; [ lia | split; [ | exact Ho ] ].
    unfold getCounter, HW_ROTENC_CYCLES_PER_DETENT.
    replace (counter (encoder_run ports s)) with ((q - 1) * 4) in * by lia.
    rewrite Z.quot_mul by lia.
    apply wrap16_id; unfold int16_range in *; lia.
Qed.

Lemma detent_moves_one_witness :
  let s := snd (setCounter 3 0 100 false init) in
  getCounter (encoder_run [8; 28; 4; 16] s) = 4.
Proof.
  intros s.
  destruct (detent_moves_one [8; 28; 4; 16] s 3) as [Hfwd _].
  - unfold wf, int16_range, uint8_range; vm_compute; intuition congruence.
  - reflexivity.
  - reflexivity.
  - vm_compute; intuition congruence.
  - destruct Hfwd as (_ & Hget & _);
      [ reflexivity | vm_compute; congruence | exact Hget ].
Defined.

(** The table entry of a transition and of its reverse cancel. *)
Lemma lookup_reverse (a b : Z) :
  0 <= a < 4 -> 0 <= b < 4 ->
  lookup (a * 4 + b) + lookup (b * 4 + a) = 0.
Proof.
  intros Ha Hb.
  assert (E : (lookup (a * 4 + b) + lookup (b * 4 + a) =? 0) = true).
  { apply (range_forallb
             (fun y => forallb (fun x => lookup (x * 4 + y) + lookup (y * 4 + x) =? 0)
                               (map Z.of_nat (seq 0 4))) 4 eq_refl b) in Hb.
    rewrite forallb_forall in Hb; apply Hb.
    apply in_map_iff; exists (Z.to_nat a); split;
      [ apply Z2Nat.id; lia | apply in_seq; lia ]. }
  apply Z.eqb_eq in E; exact E.
Qed.

(** X4: a contact that bounces, one sample away and back to the sample
    before, leaves a counter strictly inside its limits where it was,
    whichever the two samples are. *)
Theorem bounce_nets_zero (p1 p2 : Z) (s : t) :
  wf s ->
  counterMinLimit s < counter s < counterMaxLimit s ->
  sample p2 = oldState s mod 4 ->
  counter (encoderInterruptHandler p2 (encoderInterruptHandler p1 s)) = counter s.
Proof.
  intros Hwf Hinside Hback.
  pose proof Hwf as (_ & _ & _ & Hold).
  pose proof (sample_range p1) as Hs1.
  pose proof (Z.mod_pos_bound (oldState s) 4 eq_refl) as Hprev.
  set (a := oldState s mod 4) in *.
  set (b := sample p1) in *.
  pose proof (lookup_reverse a b ltac:(lia) ltac:(lia)) as Hrev.
  assert (Hidx : 0 <= a * 4 + b < 16) by lia.
  pose proof (lookup_values _ Hidx) as Hval.
  destruct (encoder_step_inside p1 s a b Hwf eq_refl eq_refl)
    as (W1 & C1 & Mn1 & Mx1 & O1); [ lia | lia | ].
  destruct (encoder_step_inside p2 _ b a W1 O1 Hback)
    as (_ & C2 & _); [ rewrite Mn1, Mx1, C1; lia | rewrite Mn1, Mx1, C1; lia | ].
  rewrite C2, C1; lia.
Qed.

Lemma bounce_nets_zero_witness :
  let s := snd (setCounter 0 (-10) 10 false init) in
  counter (encoderInterruptHandler 0 (encoderInterruptHandler 8 s)) = counter s.
Proof.
  intros s.
  apply (bounce_nets_zero 8 0 s).
  - unfold wf, int16_range, uint8_range; vm_compute; intuition congruence.
  - vm_compute; intuition congruence.
  - reflexivity.
Defined.

Lemma state_ext (s s' : t) :
  counter s = counter s' ->
  counterMinLimit s = counterMinLimit s' ->
  counterMaxLimit s = counterMaxLimit s' ->
  counterWrap s = counterWrap s' ->
  buttonState s = buttonState s' ->
  oldState s = oldState s' ->
  oldButtonState s = oldButtonState s' ->
  buttonPressTime s = buttonPressTime s' ->
  s = s'.
Proof.
  destruct s, s'; cbn; intros; subst; reflexivity.
Qed.

(** X5: the two handlers of the interrupt routine work on separate
    fields: run in either order, on whatever port values, they leave
    the same state. *)
Theorem handlers_commute (port port' now : Z) (s : t) :
  buttonInterruptHandler port now (encoderInterruptHandler port' s) =
  encoderInterruptHandler port' (buttonInterruptHandler port now s).
Proof.
  destruct (encoder_frame port' s) as (Emn & Emx & Ew & Ebs & Eobs & Ebpt & Eos).
  destruct (encoder_frame port' (buttonInterruptHandler port now s))
    as (Emn' & Emx' & Ew' & Ebs' & Eobs' & Ebpt' & Eos').
  destruct (button_frame port now s) as (Bc & Bmn & Bmx & Bw & Bos).
  destruct (button_frame port now (encoderInterruptHandler port' s))
    as (Bc' & Bmn' & Bmx' & Bw' & Bos').
  destruct (button_statics_after port now s) as (Bobs & Bbpt).
  destruct (button_statics_after port now (encoderInterruptHandler port' s))
    as (Bobs' & Bbpt').
  apply state_ext.
  - rewrite Bc', !encoder_counter; unfold counter_after.
    rewrite Bc, Bmn, Bmx, Bw, Bos; reflexivity.
  - congruence.
  - congruence.
  - congruence.
  - rewrite Ebs', !button_state_after.
    unfold release_edge, held_time; rewrite Eobs, Ebpt, Ebs; reflexivity.
  - congruence.
  - congruence.
  - rewrite Ebpt', Bbpt', Bbpt.
    unfold press_edge; rewrite Eobs, Ebpt; reflexivity.
Qed.

Lemma isr_keeps (port now : Z) (s : t) :
  wf s -> inv s ->
  wf (isr port now s) /\ inv (isr port now s) /\
  counterMinLimit (isr port now s) = counterMinLimit s /\
  counterMaxLimit (isr port now s) = counterMaxLimit s.
Proof.
  intros Hwf Hinv; unfold isr.
  destruct (encoder_inv port s Hwf Hinv) as [Hwf1 Hinv1].
  destruct (button_inv port now _ Hwf1 Hinv1) as [Hwf2 Hinv2].
  destruct (encoder_frame port s) as (Emn & Emx & _).
  destruct (button_frame port now (encoderInterruptHandler port s))
    as (_ & Bmn & Bmx & _).
  split; [ exact Hwf2 | split; [ exact Hinv2 | split; congruence ] ].
Qed.

Lemma isr_run_keeps (events : list (Z * Z)) :
  forall s,
    wf s -> inv s ->
    wf (isr_run events s) /\ inv (isr_run events s) /\
    counterMinLimit (isr_run events s) = counterMinLimit s /\
    counterMaxLimit (isr_run events s) = counterMaxLimit s.
Proof.
  unfold isr_run.
  induction events as [ | e events IH ]; intros s Hwf Hinv; cbn [fold_left].
  - split; [ exact Hwf | split; [ exact Hinv | split; reflexivity ] ].
  - destruct (isr_keeps (fst e) (snd e) s Hwf Hinv) as (Hwf1 & Hinv1 & Emn & Emx).
    destruct (IH _ Hwf1 Hinv1) as (Hwf2 & Hinv2 & Emn2 & Emx2).
    split; [ exact Hwf2 | split; [ exact Hinv2 | split; congruence ] ].
Qed.

(** X6: once [setCounter] has succeeded with limits inside
    [minLimitRange, maxLimitRange], [getCounter] stays within those
    limits through every run of interrupts, with or without wrap. *)
Theorem getCounter_within_limits
    (counterValue minLimit maxLimit : Z) (wrap : bool) (s : t)
    (events : list (Z * Z)) :
  wf s ->
  minLimitRange <= minLimit ->
  maxLimit <= maxLimitRange ->
  minLimit < maxLimit ->
  minLimit <=
    getCounter (isr_run events (snd (setCounter counterValue minLimit maxLimit wrap s)))
  <= maxLimit.
Proof.
  intros Hwf Hlo Hhi Hlt.
  destruct limit_ranges as [Emin Emax].
  assert (Hmeet : limits_meet_range minLimit maxLimit)
    by (unfold limits_meet_range; lia).
  destruct (setCounter_inv counterValue minLimit maxLimit wrap s Hwf Hlt Hmeet)
    as [Hwf0 Hinv0].
  destruct (isr_run_keeps events _ Hwf0 Hinv0) as (Hwf1 & Hinv1 & Emn & Emx).
  unfold inv in Hinv1; rewrite Emn, Emx in Hinv1.
  unfold getCounter, HW_ROTENC_CYCLES_PER_DETENT.
  set (c := counter (isr_run events
                       (snd (setCounter counterValue minLimit maxLimit wrap s)))) in *.
  clearbody c.
  rewrite setCounter_success in Hinv1 by exact Hlt.
  cbn [snd counterMinLimit counterMaxLimit] in Hinv1.
  rewrite (Z.max_l minLimit), (Z.min_l maxLimit) in Hinv1 by lia.
  unfold HW_ROTENC_CYCLES_PER_DETENT in Hinv1.
  rewrite !wrap16_id in Hinv1 by (unfold int16_range; lia).
  assert (Hq : minLimit <= Z.quot c 4 <= maxLimit).
  { split.
    - rewrite <- (Z.quot_mul minLimit 4) by lia.
      apply Z.quot_le_mono; lia.
    - rewrite <- (Z.quot_mul maxLimit 4) by lia.
      apply Z.quot_le_mono; lia. }
  rewrite wrap16_id by (unfold int16_range; lia); exact Hq.
Qed.

Lemma getCounter_within_limits_witness :
  0 <= getCounter (isr_run [(8, 1); (12, 2); (4, 3); (0, 4); (8, 5)]
                     (snd (setCounter 2 0 2 true init))) <= 2.
Proof.
  apply (getCounter_within_limits 2 0 2 true init).
  - unfold wf, int16_range, uint8_range; vm_compute; intuition congruence.
  - vm_compute; congruence.
  - vm_compute; congruence.
  - lia.
Defined.

(** X7: [getCounter] divides towards zero.  It reads 0 for the seven
    counter values -3 .. 3, a positive [q] for the four values
    [4q .. 4q + 3] and a negative [q] for the four values
    [4q - 3 .. 4q]. *)
Theorem getCounter_truncates (s : t) (q : Z) :
  int16_range (counter s) ->
  (getCounter s = q <->
   if q =? 0 then -4 < counter s < 4
   else if q >? 0 then 4 * q <= counter s < 4 * q + 4
   else 4 * q - 4 < counter s <= 4 * q).
Proof.
  unfold int16_range, getCounter, HW_ROTENC_CYCLES_PER_DETENT; intros Hc.
  assert (Hq : -8192 <= Z.quot (counter s) 4 <= 8191).
  { split.
    - change (-8192) with (Z.quot (-32768) 4); apply Z.quot_le_mono; lia.
    - change 8191 with (Z.quot 32767 4); apply Z.quot_le_mono; lia. }
  rewrite wrap16_id by (unfold int16_range; lia).
  destruct (Z.eqb_spec q 0) as [-> | Hq0];
    [ | destruct (Z.gtb_spec q 0) ];
    Z.to_euclidean_division_equations; lia.
Qed.

Lemma getCounter_truncates_witness :
  getCounter (with_counter (-3) init) = 0.
Proof.
  apply (getCounter_truncates (with_counter (-3) init) 0);
    unfold int16_range; cbn; lia.
Defined.

(** X8: limits outside [minLimitRange, maxLimitRange] are pulled to it
    one by one; when the pulled limits still enclose a range,
    [getCounter] after [setCounter] returns the value clamped into
    them. *)
Theorem setCounter_clamps_limits
    (counterValue minLimit maxLimit : Z) (wrap : bool) (s : t) :
  minLimit < maxLimit ->
  minLimit <= maxLimitRange ->
  minLimitRange <= maxLimit ->
  getCounter (snd (setCounter counterValue minLimit maxLimit wrap s)) =
  clamp (Z.max minLimit minLimitRange) (Z.min maxLimit maxLimitRange) counterValue.
Proof.
  intros Hlt Hmin Hmax.
  rewrite setCounter_success by exact Hlt.
  destruct limit_ranges as [Emin Emax]; rewrite Emin, Emax in *.
  unfold getCounter, clamp; cbn [snd counter].
  set (lo := Z.max minLimit (-8191)).
  set (hi := Z.min maxLimit 8190).
  set (v := if Z.min counterValue hi <? lo then lo else Z.min counterValue hi).
  assert (Hv : v = Z.max lo (Z.min counterValue hi))
    by (subst v; destruct (Z.ltb_spec (Z.min counterValue hi) lo); lia).
  assert (Hr : -8191 <= v <= 8190) by (subst lo hi; lia).
  unfold HW_ROTENC_CYCLES_PER_DETENT.
  rewrite (wrap16_id (v * 4)) by (unfold int16_range; lia).
  rewrite Z.quot_mul by lia.
  rewrite wrap16_id by (unfold int16_range; lia).
  exact Hv.
Qed.

Lemma setCounter_clamps_limits_witness :
  getCounter (snd (setCounter 30000 (-32768) 32767 false init)) = 8190.
Proof.
  rewrite (setCounter_clamps_limits 30000 (-32768) 32767 false init).
  - reflexivity.
  - lia.
  - vm_compute; congruence.
  - vm_compute; congruence.
Defined.

(** X9: a press seen at clock value [t0] and released [d] milliseconds
    later is classified by [d] itself, also when [millis()] has rolled
    over from 2^32 - 1 to 0 in between; a click that was still pending
    is replaced unless [d] is at or below the short-click threshold. *)
Theorem click_measured_across_rollover (p0 p1 t0 d : Z) (s : t) :
  oldButtonState s = true ->
  bitRead p0 HW_ROTENC_BTN_BIT = 0 ->
  bitRead p1 HW_ROTENC_BTN_BIT = 1 ->
  uint32_range t0 ->
  uint32_range d ->
  buttonState
    (buttonInterruptHandler p1 (wrap_u32 (t0 + d))
       (buttonInterruptHandler p0 t0 s)) =
  classify d (buttonState s).
Proof.
  unfold uint32_range; intros Hold Hp0 Hp1 Ht0 Hd.
  destruct (button_statics_after p0 t0 s) as (Eold & Epress).
  unfold press_edge in Epress; rewrite Hp0, Hold in Epress.
  cbn [Z.eqb andb] in Epress.
  rewrite Hp0 in Eold; cbn [Z.eqb negb] in Eold.
  rewrite !button_state_after.
  unfold release_edge, held_time.
  rewrite Hold, Hp0, Hp1, Eold, Epress; cbn [Z.eqb negb andb].
  replace (wrap_u32 (wrap_u32 (t0 + d) - t0)) with d; [ reflexivity | ].
  unfold wrap_u32.
  rewrite Zminus_mod_idemp_l.
  replace (t0 + d - t0) with d by lia.
  symmetry; apply Z.mod_small; lia.
Qed.

Lemma click_measured_across_rollover_witness :
  buttonState
    (buttonInterruptHandler 16 (wrap_u32 (4294967290 + 30))
       (buttonInterruptHandler 0 4294967290 init)) = BUTTON_SHORT_CLICK.
Proof.
  apply (click_measured_across_rollover 0 16 4294967290 30 init).
  - reflexivity.
  - reflexivity.
  - reflexivity.
  - unfold uint32_range; lia.
  - unfold uint32_range; lia.
Defined.

(** X10: an interrupt that finds the button line at the level of the
    interrupt before leaves the whole state as it is, whatever the
    clock reads; and the pending click can change only on an interrupt
    that finds the line released after having found it pressed. *)
Theorem button_handler_needs_edge (port now : Z) (s : t) :
  (negb (bitRead port HW_ROTENC_BTN_BIT =? 0) = oldButtonState s ->
   buttonInterruptHandler port now s = s) /\
  (buttonState (buttonInterruptHandler port now s) <> buttonState s ->
   bitRead port HW_ROTENC_BTN_BIT = 1 /\ oldButtonState s = false).
Proof.
  split.
  - intros Hlevel.
    destruct (button_frame port now s) as (Bc & Bmn & Bmx & Bw & Bos).
    destruct (button_statics_after port now s) as (Bobs & Bbpt).
    pose proof (button_state_after port now s) as Bbs.
    unfold press_edge in Bbpt; unfold release_edge in Bbs.
    rewrite <- Hlevel in Bbpt, Bbs.
    destruct (bitRead port HW_ROTENC_BTN_BIT =? 0);
      cbn [negb andb] in Bbpt, Bbs;
      apply state_ext; congruence.
  - intros Hchanged.
    rewrite button_state_after in Hchanged.
    unfold release_edge in Hchanged.
    destruct (bitRead_cases port HW_ROTENC_BTN_BIT) as [E | E];
      rewrite E in Hchanged; cbn [Z.eqb negb andb] in Hchanged.
    + congruence.
    + destruct (oldButtonState s); cbn [negb] in Hchanged;
        [ congruence | split; [ exact E | reflexivity ] ].
Qed.

Lemma button_handler_needs_edge_witness :
  buttonInterruptHandler 28 123456 init = init.
Proof.
  destruct (button_handler_needs_edge 28 123456 init) as [Hsame _].
  apply Hsame; reflexivity.
Defined.

(** X17: through every run of interrupts [getCounter] stays between the
    quotients of the two limits by the sub-step count.  The constructor
    stores its limits without multiplying them, so an encoder that
    never had [setCounter] called reads between -2047 and 2047. *)
Theorem getCounter_range (s : t) (events : list (Z * Z)) :
  wf s -> inv s ->
  Z.quot (counterMinLimit s) HW_ROTENC_CYCLES_PER_DETENT
    <= getCounter (isr_run events s)
    <= Z.quot (counterMaxLimit s) HW_ROTENC_CYCLES_PER_DETENT /\
  (s = init -> -2047 <= getCounter (isr_run events s) <= 2047).
Proof.
  intros Hwf Hinv.
  destruct (isr_run_keeps events s Hwf Hinv) as ((Hc & _) & Hinv1 & Emn & Emx).
  destruct Hwf as (_ & Hmn & Hmx & _).
  unfold inv in Hinv1; rewrite Emn, Emx in Hinv1.
  unfold getCounter, HW_ROTENC_CYCLES_PER_DETENT, int16_range in *.
  set (c := counter (isr_run events s)) in *; clearbody c.
  assert (Hq : Z.quot (counterMinLimit s) 4 <= Z.quot c 4
               <= Z.quot (counterMaxLimit s) 4)
    by (split; apply Z.quot_le_mono; lia).
  assert (Hr : -8192 <= Z.quot c 4 <= 8191).
  { split.
    - change (-8192) with (Z.quot (-32768) 4); apply Z.quot_le_mono; lia.
    - change 8191 with (Z.quot 32767 4); apply Z.quot_le_mono; lia. }
  rewrite wrap16_id by (unfold int16_range; lia).
  split; [ exact Hq | ].
  intros ->; vm_compute in Hq; exact Hq.
Qed.

Lemma getCounter_range_witness :
  -2047 <= getCounter (isr_run [(8, 1); (12, 2)] init) <= 2047.
Proof.
  destruct init_inv as [Hinv Hwf].
  destruct (getCounter_range init [(8, 1); (12, 2)] Hwf Hinv) as [_ Hinit].
  exact (Hinit eq_refl).
Defined.

Lemma bit_of_sample (port port' : Z) :
  sample port = sample port' ->
  bitRead port HW_ROTENC_A_BIT = bitRead port' HW_ROTENC_A_BIT /\
  bitRead port HW_ROTENC_B_BIT = bitRead port' HW_ROTENC_B_BIT.
Proof.
  unfold sample.
  destruct (bitRead_cases port HW_ROTENC_A_BIT) as [-> | ->],
    (bitRead_cases port HW_ROTENC_B_BIT) as [-> | ->],
    (bitRead_cases port' HW_ROTENC_A_BIT) as [-> | ->],
    (bitRead_cases port' HW_ROTENC_B_BIT) as [-> | ->]; lia.
Qed.

(** X18: of the port value the encoder handler uses lines A and B only,
    and the button handler the button line only: two port values that
    agree there are handled alike. *)
Theorem handlers_read_their_lines (port port' now : Z) (s : t) :
  (sample port = sample port' ->
   encoderInterruptHandler port s = encoderInterruptHandler port' s) /\
  (bitRead port HW_ROTENC_BTN_BIT = bitRead port' HW_ROTENC_BTN_BIT ->
   buttonInterruptHandler port now s = buttonInterruptHandler port' now s).
Proof.
  split.
  - intros Hs; destruct (bit_of_sample _ _ Hs) as [Ea Eb].
    unfold encoderInterruptHandler, nextOldState; rewrite Ea, Eb; reflexivity.
  - intros Hb; unfold buttonInterruptHandler; rewrite Hb; reflexivity.
Qed.

Lemma handlers_read_their_lines_witness :
  encoderInterruptHandler 8 init = encoderInterruptHandler 251 init /\
  buttonInterruptHandler 16 7 init = buttonInterruptHandler 255 7 init.
Proof.
  destruct (handlers_read_their_lines 8 251 7 init) as [Henc _].
  destruct (handlers_read_their_lines 16 255 7 init) as [_ Hbtn].
  split; [ apply Henc | apply Hbtn ]; reflexivity.
Defined.

End RotEncExtra.

(** ** Neopixel transmitter: further properties *)

Module NeopixelExtra.
Import Fixed Hardware Neopixel ExtraSpec FixedFacts NeopixelFacts.

Lemma pulses_app (l1 l2 : list op) : pulses (l1 ++ l2) = (pulses l1 + pulses l2)%nat.
Proof. unfold pulses; rewrite filter_app, length_app; reflexivity. Qed.

Lemma line_after_app (lvl : bool) (l1 l2 : list op) :
  line_after lvl (l1 ++ l2) = line_after (line_after lvl l1) l2.
Proof. unfold line_after; apply fold_left_app. Qed.

Lemma pulses_nops (n : nat) : pulses (repeat Nop n) = 0%nat.
Proof. induction n as [ | n IH ]; [ reflexivity | exact IH ]. Qed.

Lemma line_after_nops (lvl : bool) (n : nat) : line_after lvl (repeat Nop n) = lvl.
Proof. induction n as [ | n IH ]; [ reflexivity | exact IH ]. Qed.

(** Two runs of [nop] closed by [cbi] that agree have the same length. *)
Lemma nops_then_cbi (n m : nat) (l l' : list op) :
  repeat Nop n ++ Cbi :: l = repeat Nop m ++ Cbi :: l' -> n = m /\ l = l'.
Proof.
  revert m; induction n as [ | n IH ]; intros [ | m ]; cbn [repeat app]; intros E.
  - injection E as ->; split; reflexivity.
  - discriminate E.
  - discriminate E.
  - injection E as E; destruct (IH _ E) as [-> ->]; split; reflexivity.
Qed.

Lemma app_same_length {A : Type} (l1 l1' l2 l2' : list A) :
  length l1 = length l1' ->
  l1 ++ l2 = l1' ++ l2' ->
  l1 = l1' /\ l2 = l2'.
Proof.
  revert l1'; induction l1 as [ | a l1 IH ]; intros [ | a' l1' ] Hlen E;
    cbn [length app] in *; try discriminate Hlen.
  - split; [ reflexivity | exact E ].
  - injection E as -> E; injection Hlen as Hlen.
    destruct (IH _ Hlen E) as [-> ->]; split; reflexivity.
Qed.

Section WithClock.
Variable F_CPU : Z.

Lemma bit_code_shape (v : bool) :
  exists low : nat,
    bit_code F_CPU v = Sbi :: repeat Nop (high_nops F_CPU v) ++ Cbi :: repeat Nop low.
Proof.
  destruct v; unfold bit_code, pulse, high_nops; cbn [app]; eexists; reflexivity.
Qed.

Lemma bit_code_pulse (v : bool) (lvl : bool) :
  pulses (bit_code F_CPU v) = 1%nat /\ line_after lvl (bit_code F_CPU v) = false.
Proof.
  destruct (bit_code_shape v) as [low ->]; split.
  - change (Sbi :: ?l) with ([Sbi] ++ l).
    change (Cbi :: ?l) with ([Cbi] ++ l).
    rewrite !pulses_app, !pulses_nops; reflexivity.
  - change (Sbi :: ?l) with ([Sbi] ++ l).
    change (Cbi :: ?l) with ([Cbi] ++ l).
    rewrite !line_after_app, !line_after_nops; reflexivity.
Qed.

Lemma bits_pulses (bs : list bool) (lvl : bool) :
  pulses (concat (map (bit_code F_CPU) bs)) = length bs /\
  line_after lvl (concat (map (bit_code F_CPU) bs)) =
    match bs with [] => lvl | _ :: _ => false end.
Proof.
  revert lvl; induction bs as [ | b bs IH ]; intros lvl; [ split; reflexivity | ].
  cbn [map concat length].
  destruct (bit_code_pulse b lvl) as [Hp Hl].
  destruct (IH false) as [IHp IHl].
  rewrite pulses_app, line_after_app, Hp, Hl, IHp, IHl.
  split; [ reflexivity | destruct bs; reflexivity ].
Qed.

Lemma triplet_as_bits (r g b : Z) :
  triplet_code F_CPU r g b =
  concat (map (bit_code F_CPU) (msb_first g ++ msb_first r ++ msb_first b)).
Proof.
  unfold triplet_code, byte_code; rewrite !map_app, !concat_app; reflexivity.
Qed.

Lemma frame_pulses (r g b : Z) (K : nat) (lvl : bool) :
  pulses (concat (repeat (triplet_code F_CPU r g b) K)) = (24 * K)%nat /\
  line_after lvl (concat (repeat (triplet_code F_CPU r g b) K)) =
    match K with O => lvl | S _ => false end.
Proof.
  revert lvl; induction K as [ | K IH ]; intros lvl; [ split; reflexivity | ].
  cbn [repeat concat].
  assert (Hp : pulses (triplet_code F_CPU r g b) = 24%nat)
    by (rewrite triplet_as_bits; exact (proj1 (bits_pulses _ lvl))).
  assert (Hl : line_after lvl (triplet_code F_CPU r g b) = false)
    by (rewrite triplet_as_bits; exact (proj2 (bits_pulses _ lvl))).
  destruct (IH false) as [IHp IHl].
  rewrite pulses_app, line_after_app, Hp, Hl, IHp, IHl.
  split; [ lia | destruct K; reflexivity ].
Qed.

(** X11: whatever the colour, the clock rate and the level of the line
    before, [setUniformColour] drives the line high exactly 768 times,
    once per bit of 32 pixels of 24 bits, and leaves it low, where it
    stays through the closing wait. *)
Theorem setUniformColour_pulses (r g b : Z) (m : mcu) (lvl : bool) :
  let added := map snd (since m (setUniformColour F_CPU r g b m)) in
  pulses added = 768%nat /\
  line_after lvl added = false.
Proof.
  cbv zeta.
  rewrite (since_app _ _ _ (setUniformColour_wire F_CPU r g b m)).
  rewrite map_map; cbn [snd]; rewrite map_id.
  destruct (frame_pulses r g b (Z.to_nat HW_NEOPIXEL_NUMBER) lvl) as [Hp Hl].
  rewrite pulses_app, line_after_app, Hp, Hl; split; reflexivity.
Qed.

(** A stream of bit codes is read back bit by bit when the two codes
    hold the line high for different times. *)
Lemma bits_decodable (bs bs' : list bool) :
  high_nops F_CPU true <> high_nops F_CPU false ->
  concat (map (bit_code F_CPU) bs) = concat (map (bit_code F_CPU) bs') ->
  bs = bs'.
Proof.
  intros Hdiff; revert bs'.
  induction bs as [ | v bs IH ]; intros [ | v' bs' ]; cbn [map concat]; intros E.
  - reflexivity.
  - destruct (bit_code_shape v') as [low' Hs']; rewrite Hs' in E; discriminate E.
  - destruct (bit_code_shape v) as [low Hs]; rewrite Hs in E; discriminate E.
  - destruct (bit_code_shape v) as [low Hs], (bit_code_shape v') as [low' Hs'].
    assert (Hv : v = v').
    { rewrite Hs, Hs' in E; cbn [app] in E; injection E as E.
      rewrite <- !app_assoc in E; cbn [app] in E.
      apply nops_then_cbi in E; destruct E as [En _].
      destruct v, v'; congruence. }
    subst v'; apply app_inv_head in E.
    f_equal; apply IH; exact E.
Qed.

Lemma msb_first_inj (x y : Z) :
  0 <= x < 256 -> 0 <= y < 256 -> msb_first x = msb_first y -> x = y.
Proof.
  intros Hx Hy E; unfold msb_first in E; cbn [map] in E.
  injection E as E7 E6 E5 E4 E3 E2 E1 E0.
  apply Z.bits_inj'; intros n Hn.
  destruct (Z_lt_ge_dec n 8) as [Hlt | Hge].
  - assert (Hcase : n = 0 \/ n = 1 \/ n = 2 \/ n = 3 \/
                    n = 4 \/ n = 5 \/ n = 6 \/ n = 7) by lia.
    destruct Hcase as [-> | [-> | [-> | [-> | [-> | [-> | [-> | ->]]]]]]];
      assumption.
  - rewrite <- (Z.mod_small x (2 ^ 8)), <- (Z.mod_small y (2 ^ 8))
      by (change (2 ^ 8) with 256; lia).
    rewrite !Z.mod_pow2_bits_high by lia; reflexivity.
Qed.

(** X12: when the 1 bit and the 0 bit hold the line high for different
    numbers of cycles, what [sendRgb] puts on the wire determines the
    three colour bytes. *)
Theorem sendRgb_injective (r g b r' g' b' : Z) (m : mcu) :
  high_nops F_CPU true <> high_nops F_CPU false ->
  uint8_range r -> uint8_range g -> uint8_range b ->
  uint8_range r' -> uint8_range g' -> uint8_range b' ->
  ops (sendRgb F_CPU r g b m) = ops (sendRgb F_CPU r' g' b' m) ->
  r = r' /\ g = g' /\ b = b'.
Proof.
  unfold uint8_range; intros Hdiff Hr Hg Hb Hr' Hg' Hb' E.
  destruct (appends_sendRgb F_CPU r g b m) as [_ W].
  destruct (appends_sendRgb F_CPU r' g' b' m) as [_ W'].
  rewrite (ops_app _ _ _ _ W), (ops_app _ _ _ _ W') in E.
  apply app_inv_head in E.
  rewrite !triplet_as_bits in E.
  apply (bits_decodable _ _ Hdiff) in E.
  apply app_same_length in E; [ | reflexivity ].
  destruct E as [Eg E].
  apply app_same_length in E; [ | reflexivity ].
  destruct E as [Er Eb].
  repeat split; apply msb_first_inj; try lia; assumption.
Qed.

End WithClock.

(** At 16 MHz a 1 bit holds the line high for 12 padding cycles and a
    0 bit for 4. *)
Lemma sendRgb_injective_witness :
  let m := {| interruptsEnabled := false; wire := [] |} in
  high_nops 16000000 true = 12%nat /\
  high_nops 16000000 false = 4%nat /\
  (10 = 10 /\ 20 = 20 /\ 30 = 30).
Proof.
  intros m.
  split; [ reflexivity | split; [ reflexivity | ] ].
  apply (sendRgb_injective 16000000 10 20 30 10 20 30 m);
    try (unfold uint8_range; lia).
  - vm_compute; congruence.
  - reflexivity.
Defined.

End NeopixelExtra.

(** ** The device: setting up, and the interrupt flag *)

Module DeviceFacts.
Import Fixed Hardware Neopixel Device FixedFacts.

(** Bits of a register after [|= mask] and after [&= ~mask]. *)
Lemma set_mask_bits (v x k : Z) :
  0 <= k ->
  Z.testbit (wrap_u8 (Z.lor v x)) k = (k <? 8) && (Z.testbit v k || Z.testbit x k).
Proof.
  intros Hk; unfold wrap_u8; change 256 with (2 ^ 8).
  destruct (Z.ltb_spec k 8) as [Hlt | Hge]; cbn [andb].
  - rewrite Z.mod_pow2_bits_low by lia; apply Z.lor_spec.
  - apply Z.mod_pow2_bits_high; lia.
Qed.

Lemma clear_mask_bits (v x k : Z) :
  0 <= k ->
  Z.testbit (wrap_u8 (Z.land v (Z.lnot x))) k =
  (k <? 8) && (Z.testbit v k && negb (Z.testbit x k)).
Proof.
  intros Hk; unfold wrap_u8; change 256 with (2 ^ 8).
  destruct (Z.ltb_spec k 8) as [Hlt | Hge]; cbn [andb].
  - rewrite Z.mod_pow2_bits_low, Z.land_spec, Z.lnot_spec by lia; reflexivity.
  - apply Z.mod_pow2_bits_high; lia.
Qed.

Lemma one_bit (bit k : Z) :
  0 <= bit -> Z.testbit (Z.shiftl 1 bit) k = (k =? bit).
Proof.
  intros Hbit; rewrite Z.shiftl_1_l, Z.pow2_bits_eqb by lia.
  apply Z.eqb_sym.
Qed.

Lemma bitSet_bits (v bit k : Z) :
  0 <= bit -> 0 <= k < 8 ->
  Z.testbit (bitSet v bit) k = Z.testbit v k || (k =? bit).
Proof.
  intros Hbit Hk; unfold bitSet.
  rewrite set_mask_bits, one_bit by lia.
  destruct (Z.ltb_spec k 8); [ reflexivity | lia ].
Qed.

Lemma bitClear_bits (v bit k : Z) :
  0 <= bit -> 0 <= k < 8 ->
  Z.testbit (bitClear v bit) k = Z.testbit v k && negb (k =? bit).
Proof.
  intros Hbit Hk; unfold bitClear.
  rewrite clear_mask_bits, one_bit by lia.
  destruct (Z.ltb_spec k 8); [ reflexivity | lia ].
Qed.

Lemma bitSet_idem (v bit bit' : Z) :
  bitSet (bitSet v bit) bit' = bitSet (bitSet (bitSet (bitSet v bit) bit') bit) bit'.
Proof.
  unfold bitSet; apply Z.bits_inj'; intros k Hk.
  rewrite !set_mask_bits by exact Hk.
  destruct (k <? 8), (Z.testbit v k), (Z.testbit (Z.shiftl 1 bit) k),
    (Z.testbit (Z.shiftl 1 bit') k); reflexivity.
Qed.

Lemma bitSet_idem1 (v bit : Z) : bitSet (bitSet v bit) bit = bitSet v bit.
Proof.
  unfold bitSet; apply Z.bits_inj'; intros k Hk.
  rewrite !set_mask_bits by exact Hk.
  destruct (k <? 8), (Z.testbit v k), (Z.testbit (Z.shiftl 1 bit) k); reflexivity.
Qed.

Lemma bitSet_idem3 (v b1 b2 b3 : Z) :
  bitSet (bitSet (bitSet (bitSet (bitSet (bitSet v b1) b2) b3) b1) b2) b3 =
  bitSet (bitSet (bitSet v b1) b2) b3.
Proof.
  unfold bitSet; apply Z.bits_inj'; intros k Hk.
  rewrite !set_mask_bits by exact Hk.
  destruct (k <? 8), (Z.testbit v k), (Z.testbit (Z.shiftl 1 b1) k),
    (Z.testbit (Z.shiftl 1 b2) k), (Z.testbit (Z.shiftl 1 b3) k); reflexivity.
Qed.

Lemma bitClear_idem (v bit bit' : Z) :
  bitClear (bitClear (bitClear (bitClear v bit) bit') bit) bit' =
  bitClear (bitClear v bit) bit'.
Proof.
  unfold bitClear; apply Z.bits_inj'; intros k Hk.
  rewrite !clear_mask_bits by exact Hk.
  destruct (k <? 8), (Z.testbit v k), (Z.testbit (Z.shiftl 1 bit) k),
    (Z.testbit (Z.shiftl 1 bit') k); reflexivity.
Qed.

Section WithIoHeader.
Variables PCINT18 PCINT19 PCINT20 PCIF2 PCIE2 : Z.

(** X13: [RotEnc::begin] makes lines A and B inputs with pull-ups and
    touches no other bit of the direction and output registers; the
    button line's direction and pull-up bits are among those it leaves
    alone.  It sets the three pin-change mask bits and the enable bit,
    writes a one to the flag bit, leaves the neopixel's register and
    the encoder object alone, and returns with interrupts enabled
    whatever the flag was. *)
Theorem RotEnc_begin_registers (d : Device.t) (k : Z) :
  0 <= PCINT18 -> 0 <= PCINT19 -> 0 <= PCINT20 -> 0 <= PCIF2 -> 0 <= PCIE2 ->
  0 <= k < 8 ->
  let r := io d in
  let r' := io (RotEnc_begin PCINT18 PCINT19 PCINT20 PCIF2 PCIE2 d) in
  Z.testbit (DDRD r') k =
    Z.testbit (DDRD r) k && negb (k =? HW_ROTENC_A_BIT) && negb (k =? HW_ROTENC_B_BIT) /\
  Z.testbit (PORTD r') k =
    Z.testbit (PORTD r) k || (k =? HW_ROTENC_A_BIT) || (k =? HW_ROTENC_B_BIT) /\
  Z.testbit (DDRD r') HW_ROTENC_BTN_BIT = Z.testbit (DDRD r) HW_ROTENC_BTN_BIT /\
  Z.testbit (PORTD r') HW_ROTENC_BTN_BIT = Z.testbit (PORTD r) HW_ROTENC_BTN_BIT /\
  Z.testbit (PCMSK2 r') k =
    Z.testbit (PCMSK2 r) k || (k =? PCINT18) || (k =? PCINT19) || (k =? PCINT20) /\
  Z.testbit (PCIFR r') k = Z.testbit (PCIFR r) k || (k =? PCIF2) /\
  Z.testbit (PCICR r') k = Z.testbit (PCICR r) k || (k =? PCIE2) /\
  DDRB r' = DDRB r /\
  interruptsEnabled (cpu (RotEnc_begin PCINT18 PCINT19 PCINT20 PCIF2 PCIE2 d)) = true /\
  wire (cpu (RotEnc_begin PCINT18 PCINT19 PCINT20 PCIF2 PCIE2 d)) = wire (cpu d) /\
  rotenc (RotEnc_begin PCINT18 PCINT19 PCINT20 PCIF2 PCIE2 d) = rotenc d.
Proof.
  intros H18 H19 H20 Hif Hie Hk r r'; subst r r'.
  unfold RotEnc_begin, HW_ROTENC_A_INT, HW_ROTENC_B_INT, HW_ROTENC_BTN_INT,
    HW_ROTENC_PCIFR, HW_ROTENC_PCICR, HW_ROTENC_A_BIT, HW_ROTENC_B_BIT,
    HW_ROTENC_BTN_BIT.
  cbn [io cpu rotenc DDRB DDRD PORTD PCMSK2 PCIFR PCICR set_DDRD set_PORTD
       set_PCMSK2 set_PCIFR set_PCICR interrupts noInterrupts
       interruptsEnabled wire].
  rewrite !(bitSet_bits _ _ k), !(bitClear_bits _ _ k) by lia.
  rewrite !(bitSet_bits _ _ 4), !(bitClear_bits _ _ 4) by lia.
  cbn [Z.eqb Pos.eqb negb andb orb].
  rewrite !andb_true_r, !orb_false_r.
  repeat split.
Qed.

(** X14: calling [RotEnc::begin] a second time changes nothing. *)
Theorem RotEnc_begin_idempotent (d : Device.t) :
  RotEnc_begin PCINT18 PCINT19 PCINT20 PCIF2 PCIE2
    (RotEnc_begin PCINT18 PCINT19 PCINT20 PCIF2 PCIE2 d) =
  RotEnc_begin PCINT18 PCINT19 PCINT20 PCIF2 PCIE2 d.
Proof.
  unfold RotEnc_begin.
  cbn [io cpu rotenc DDRB DDRD PORTD PCMSK2 PCIFR PCICR set_DDRD set_PORTD
       set_PCMSK2 set_PCIFR set_PCICR interrupts noInterrupts
       interruptsEnabled wire].
  rewrite bitClear_idem, <- bitSet_idem, bitSet_idem3, !bitSet_idem1.
  reflexivity.
Qed.

End WithIoHeader.

Lemma RotEnc_begin_registers_witness :
  let d := {| cpu := {| interruptsEnabled := false; wire := [] |};
              io := {| DDRB := 0; DDRD := 255; PORTD := 0;
                       PCMSK2 := 0; PCIFR := 0; PCICR := 0 |};
              rotenc := RotEnc.init |} in
  let d' := RotEnc_begin 2 3 4 2 2 d in
  DDRD (io d') = 243 /\ PORTD (io d') = 12 /\
  Z.testbit (DDRD (io d')) 4 = Z.testbit (DDRD (io d)) 4.
Proof.
  intros d d'.
  split; [ reflexivity | split; [ reflexivity | ] ].
  destruct (RotEnc_begin_registers 2 3 4 2 2 d 4) as (_ & _ & Hbtn & _);
    try lia.
  exact Hbtn.
Defined.

(** X15: [Neopixel::begin] turns bit 5 of the direction register into
    an output and leaves every other bit, register and field as it is;
    a second call changes nothing. *)
Theorem Neopixel_begin_sets_output (d : Device.t) (k : Z) :
  0 <= k < 8 ->
  Z.testbit (DDRB (io (Neopixel_begin d))) k =
    Z.testbit (DDRB (io d)) k || (k =? 5) /\
  io (Neopixel_begin d) = set_DDRB (DDRB (io (Neopixel_begin d))) (io d) /\
  cpu (Neopixel_begin d) = cpu d /\
  rotenc (Neopixel_begin d) = rotenc d /\
  Neopixel_begin (Neopixel_begin d) = Neopixel_begin d.
Proof.
  intros Hk; unfold Neopixel_begin, HW_NEOPIXEL_BIT.
  cbn [io cpu rotenc DDRB DDRD PORTD PCMSK2 PCIFR PCICR set_DDRB].
  rewrite bitSet_bits, bitSet_idem1 by lia.
  repeat split.
Qed.

Lemma Neopixel_begin_sets_output_witness :
  let d := {| cpu := {| interruptsEnabled := true; wire := [] |};
              io := {| DDRB := 3; DDRD := 0; PORTD := 0;
                       PCMSK2 := 0; PCIFR := 0; PCICR := 0 |};
              rotenc := RotEnc.init |} in
  Z.testbit (DDRB (io (Neopixel_begin d))) 5 = true /\
  DDRB (io (Neopixel_begin d)) = 35.
Proof.
  intros d.
  destruct (Neopixel_begin_sets_output d 5) as (Hbit & _); [ lia | ].
  split; [ exact Hbit | reflexivity ].
Defined.

(** X16: [setUniformColour] returns with interrupts suspended and the
    next [getCounter], [getButtonState] or successful [setCounter]
    turns them on again, each returning what it returns on the encoder
    object alone; a [setCounter] that fails leaves them suspended. *)
Theorem interrupts_after_setUniformColour
    (F_CPU r g b : Z) (d : Device.t)
    (counterValue minLimit maxLimit : Z) (wrap : bool) :
  let d1 := Neopixel_setUniformColour F_CPU r g b d in
  interruptsEnabled (cpu d1) = false /\
  rotenc d1 = rotenc d /\
  interruptsEnabled (cpu (snd (RotEnc_getCounter d1))) = true /\
  fst (RotEnc_getCounter d1) = RotEnc.getCounter (rotenc d) /\
  interruptsEnabled (cpu (snd (RotEnc_getButtonState d1))) = true /\
  fst (RotEnc_getButtonState d1) = RotEnc.buttonState (rotenc d) /\
  fst (RotEnc_setCounter counterValue minLimit maxLimit wrap d1) =
    fst (RotEnc.setCounter counterValue minLimit maxLimit wrap (rotenc d)) /\
  rotenc (snd (RotEnc_setCounter counterValue minLimit maxLimit wrap d1)) =
    snd (RotEnc.setCounter counterValue minLimit maxLimit wrap (rotenc d)) /\
  interruptsEnabled
    (cpu (snd (RotEnc_setCounter counterValue minLimit maxLimit wrap d1))) =
    fst (RotEnc.setCounter counterValue minLimit maxLimit wrap (rotenc d)).
Proof.
  cbv zeta.
  unfold RotEnc_setCounter, RotEnc.setCounter, RotEnc_getCounter,
    RotEnc_getButtonState, RotEnc.getButtonState, Neopixel_setUniformColour.
  cbn [cpu rotenc io fst snd].
  destruct (minLimit >=? maxLimit); cbn [cpu rotenc io fst snd];
    repeat split.
Qed.

End DeviceFacts.
